(** * gopacket packet engine (packet.go): eager and lazy decoding,
      failure recovery, buffer ownership and the PacketSource adapter.

    The Go code is embedded shallowly:
    - a [[]byte] is a slice header ([slice]) into a heap of backing arrays
      ([heap]), so that copying and aliasing in [NewPacket] are visible;
    - a [Decoder] is a function from the slice it is handed (and the bytes
      read through it) to a [DecodeBody]: the tree of calls it makes on the
      [PacketBuilder] it was given, ending in [Return] or [Panic];
    - [*packet] methods are state transformers on the [packet] record;
    - the [for] loops of the lazy accessors and of [packetsToChannel] take
      a step budget and return [None] when it is exhausted.

    What is taken for granted about the code outside packet.go: a decoder
    acts on the packet only through the builder it is given, returns or
    panics after finitely many calls, lets panics through, and adds no
    nil layer; the methods of a layer return normally; nothing writes to
    the heap while a decode call runs. *)

From Stdlib Require Import ZArith Lia String DecimalString.
From stdpp Require Import base option list.

Local Open Scope list_scope.

(** ** Bytes, slices and the heap *)

Definition byte := Byte.byte.

(** A Go slice header: backing array, offset into it, length.  The
    capacity plays no part in packet.go and is left out. *)
Record slice := mkSlice { base : nat; off : nat; len : nat }.

(** The heap: backing arrays, addressed by position. *)
Abbreviation heap := (list (list byte)).

Definition nilSlice : slice := mkSlice 0 0 0.

Definition backing (h : heap) (b : nat) : list byte := default [] (h !! b).

(** The bytes seen through a slice. *)
Definition readSlice (h : heap) (s : slice) : list byte :=
  take (len s) (drop (off s) (backing h (base s))).

(** [s] lies inside an allocated backing array. *)
Definition validSlice (h : heap) (s : slice) : Prop :=
  off s + len s <= length (backing h (base s)) /\ base s < length h.

(** [s[i] = v], as the owner of the backing array of [s] would write it. *)
Definition pokeSlice (h : heap) (s : slice) (i : nat) (v : byte) : heap :=
  alter (fun buf => <[off s + i := v]> buf) (base s) h.

(** [s[lo:hi]] *)
Definition subslice (s : slice) (lo hi : nat) : slice :=
  mkSlice (base s) (off s + lo) (hi - lo).

(** [make([]byte, n)]: a fresh zeroed backing array. *)
Definition make (h : heap) (n : nat) : heap * slice :=
  (h ++ [replicate n Byte.x00], mkSlice (length h) 0 n).

(** [copy(dst, src)]: min(len(dst), len(src)) bytes go from [src] to [dst]. *)
Definition copy (h : heap) (dst src : slice) : heap :=
  let n := Nat.min (len dst) (len src) in
  let bs := take n (readSlice h src) in
  alter (fun buf => take (off dst) buf ++ bs ++ drop (off dst + length bs) buf)
        (base dst) h.

(** Successive writes [s[i] = v] through the same slice. *)
Fixpoint pokes (h : heap) (s : slice) (ws : list (nat * byte)) : heap :=
  match ws with
  | [] => h
  | (i, v) :: ws' => pokes (pokeSlice h s i v) s ws'
  end.

(** ** Errors and panic values *)

(** Go [error] values, told apart by identity: the two package-level
    sentinels packet.go compares against or returns, and errors made on
    the spot by [errors.New] / [fmt.Errorf]. *)
Inductive error :=
| io_EOF
| nilDecoderError
| errors_New (msg : string).

Definition error_Error (e : error) : string :=
  match e with
  | io_EOF => "EOF"
  | nilDecoderError =>
      "NextDecoder passed nil decoder, probably an unsupported decode type"
  | errors_New msg => msg
  end.

(** [err == io.EOF] *)
Definition is_EOF (e : error) : bool :=
  match e with io_EOF => true | _ => false end.

(** The value carried by a panic: an [error] (as in [panic(err)]) or any
    other value, kept as its [%v] rendering. *)
Inductive any :=
| anyError (e : error)
| anyOther (rendered : string).

(** [fmt.Errorf("%v", r)] *)
Definition fmt_Errorf_v (r : any) : error :=
  match r with
  | anyError e => errors_New (error_Error e)
  | anyOther s => errors_New s
  end.

(** ** Layers *)

Definition LayerType := Z.

(** [LayerClass] is used through its [Contains] method only. *)
Definition LayerClass := LayerType -> bool.

(** [DecodeFailure{err: ..., data: ...}] as built by [recoverDecodeError];
    its [data] is [fdata] here. *)
Record DecodeFailure := mkDecodeFailure { err : error; fdata : slice }.

(** A [Layer] is an interface value.  A layer supplied by a decoder is
    known by what its methods return; the failure layer is the struct the
    engine builds itself. *)
Inductive Layer :=
| ProtocolLayer (ty : LayerType) (contents payload : slice)
| FailureLayer (f : DecodeFailure).

Inductive Role := RLink | RNetwork | RTransport | RApplication | RError.

(** ** Decoders *)

(** What a [Decode] call does with its [PacketBuilder], call by call.
    [NextDecoder] hands its result (an [error] or nil) to the rest of the
    body.  [SetLayer r] stands for [SetLinkLayer], [SetNetworkLayer],
    [SetTransportLayer], [SetApplicationLayer] and [SetErrorLayer]; the
    layer may be nil. *)
#[local] Unset Elimination Schemes.
Inductive DecodeBody :=
| Return (e : option error)
| Panic (v : any)
| AddLayer (l : Layer) (k : DecodeBody)
| SetLayer (r : Role) (l : option Layer) (k : DecodeBody)
| NextDecoder (next : option (slice -> list byte -> DecodeBody))
              (k : option error -> DecodeBody).
#[local] Set Elimination Schemes.

(** [Decode(data []byte, p PacketBuilder) error]: the slice and the bytes
    read through it at the time of the call. *)
Definition Decoder := slice -> list byte -> DecodeBody.

(** How a call ended. *)
Inductive Outcome :=
| Returned (e : option error)
| Panicked (v : any).

(** [dec.Decode(d, p)] on an interface value that may be nil. *)
Definition Decoder_Decode (dec : option Decoder) (d : slice) (bs : list byte)
  : DecodeBody :=
  match dec with
  | Some f => f d bs
  | None =>
      Panic (anyOther "runtime error: invalid memory address or nil pointer dereference")
  end.

(** ** The packet *)

Record CaptureInfo := mkCaptureInfo {
  Populated : bool;
  Timestamp : Z;
  CaptureLength : Z;
  Length : Z
}.

Definition zeroCaptureInfo : CaptureInfo := mkCaptureInfo false 0%Z 0%Z 0%Z.

(** [initialLayers] only provides the first backing store of [layers]
    and is not modelled. *)
Record packet := mkPacket {
  data : slice;
  layers : list Layer;
  last : option Layer;
  capInfo : CaptureInfo;
  link : option Layer;
  network : option Layer;
  transport : option Layer;
  application : option Layer;
  failure : option Layer
}.

(** [packet{data: data}] with [p.layers = p.initialLayers[:0]] *)
Definition newPacketStruct (d : slice) : packet :=
  mkPacket d [] None zeroCaptureInfo None None None None None.

(** ** Sample inputs and decoders *)

(** One choice for what a failure layer reports: type 1, empty payload. *)
Definition failureType : LayerType := 1%Z.
Definition failurePayload (f : DecodeFailure) : slice := nilSlice.

Definition sampleHeap : heap := [[Byte.x01; Byte.x02; Byte.x03]].
Definition sampleData : slice := mkSlice 0 0 3.
Definition emptyData : slice := mkSlice 0 0 0.

(** The layer made of the first byte of [d]; the rest is its payload. *)
Definition cutLayer (ty : LayerType) (d : slice) : Layer :=
  ProtocolLayer ty (subslice d 0 1) (subslice d 1 (len d)).

Definition shortBuffer : error := errors_New "short buffer".

(** [if len(data) < 1 { return err }; p.AddLayer(l);
     return p.NextDecoder(nxt)] *)
Definition decodeLayer (ty : LayerType) (nxt : option Decoder) : Decoder :=
  fun d _ =>
    if Nat.ltb (len d) 1 then Return (Some shortBuffer)
    else AddLayer (cutLayer ty d) (NextDecoder nxt Return).

(** [p.AddLayer(l); p.SetTransportLayer(l); return nil] *)
Definition decodeTransport (ty : LayerType) : Decoder :=
  fun d _ =>
    AddLayer (cutLayer ty d)
      (SetLayer RTransport (Some (cutLayer ty d)) (Return None)).

(** [return errors.New(msg)] *)
Definition decodeFail (msg : string) : Decoder :=
  fun _ _ => Return (Some (errors_New msg)).

(** [p.AddLayer(l); p.NextDecoder(nxt); return nil] *)
Definition decodeSwallow (ty : LayerType) (nxt : Decoder) : Decoder :=
  fun d _ =>
    AddLayer (cutLayer ty d) (NextDecoder (Some nxt) (fun _ => Return None)).


(** [p.AddLayer(l); p.NextDecoder(nxt); return errors.New(msg)] *)
Definition decodeQueueThenFail (ty : LayerType) (nxt : Decoder) (msg : string)
  : Decoder :=
  fun d _ =>
    AddLayer (cutLayer ty d)
      (NextDecoder (Some nxt) (fun _ => Return (Some (errors_New msg)))).

(** [return p.NextDecoder(nxt)] *)
Definition decodeDispatch (nxt : Decoder) : Decoder :=
  fun _ _ => NextDecoder (Some nxt) Return.

(** [p.AddLayer(l); p.NextDecoder(d1); return p.NextDecoder(d2)] *)
Definition decodeQueueTwice (ty : LayerType) (d1 d2 : Decoder) : Decoder :=
  fun d _ =>
    AddLayer (cutLayer ty d)
      (NextDecoder (Some d1) (fun _ => NextDecoder (Some d2) Return)).

(** A chain of three layers over the three sample bytes. *)
Definition sampleChain : Decoder :=
  decodeLayer 10%Z (Some (decodeLayer 20%Z (Some (decodeTransport 30%Z)))).

(** One choice for the two printing methods. *)
Definition sampleTypeString (t : LayerType) : string :=
  if Z.eqb t 10%Z then "Ethernet" else "Other".
Definition sampleLayerString (l : Layer) : string := "...".

Section Engine.

(** [DecodeFailure]'s methods are declared outside packet.go; the two the
    engine calls are taken as parameters. *)
Variable LayerTypeDecodeFailure : LayerType.
Variable DecodeFailure_LayerPayload : DecodeFailure -> slice.

Definition Layer_LayerType (l : Layer) : LayerType :=
  match l with
  | ProtocolLayer ty _ _ => ty
  | FailureLayer _ => LayerTypeDecodeFailure
  end.

Definition Layer_LayerPayload (l : Layer) : slice :=
  match l with
  | ProtocolLayer _ _ payload => payload
  | FailureLayer f => DecodeFailure_LayerPayload f
  end.

Definition packet_SetLinkLayer (l : option Layer) (p : packet) : packet :=
  match link p with
  | None => mkPacket (data p) (layers p) (last p) (capInfo p)
                     l (network p) (transport p) (application p) (failure p)
  | Some _ => p
  end.

Definition packet_SetNetworkLayer (l : option Layer) (p : packet) : packet :=
  match network p with
  | None => mkPacket (data p) (layers p) (last p) (capInfo p)
                     (link p) l (transport p) (application p) (failure p)
  | Some _ => p
  end.

Definition packet_SetTransportLayer (l : option Layer) (p : packet) : packet :=
  match transport p with
  | None => mkPacket (data p) (layers p) (last p) (capInfo p)
                     (link p) (network p) l (application p) (failure p)
  | Some _ => p
  end.

Definition packet_SetApplicationLayer (l : option Layer) (p : packet) : packet :=
  match application p with
  | None => mkPacket (data p) (layers p) (last p) (capInfo p)
                     (link p) (network p) (transport p) l (failure p)
  | Some _ => p
  end.

Definition packet_SetErrorLayer (l : option Layer) (p : packet) : packet :=
  match failure p with
  | None => mkPacket (data p) (layers p) (last p) (capInfo p)
                     (link p) (network p) (transport p) (application p) l
  | Some _ => p
  end.

Definition packet_SetLayer (r : Role) : option Layer -> packet -> packet :=
  match r with
  | RLink => packet_SetLinkLayer
  | RNetwork => packet_SetNetworkLayer
  | RTransport => packet_SetTransportLayer
  | RApplication => packet_SetApplicationLayer
  | RError => packet_SetErrorLayer
  end.

Definition packet_AddLayer (l : Layer) (p : packet) : packet :=
  mkPacket (data p) (layers p ++ [l]) (Some l) (capInfo p)
           (link p) (network p) (transport p) (application p) (failure p).

Definition packet_Data (p : packet) : slice := data p.

(** [*packet.CaptureInfo() = ci] *)
Definition packet_setCaptureInfo (ci : CaptureInfo) (p : packet) : packet :=
  mkPacket (data p) (layers p) (last p) ci
           (link p) (network p) (transport p) (application p) (failure p).

(** The deferred [recoverDecodeError]; [r] is what [recover()] returns. *)
Definition packet_recoverDecodeError (r : option any) (p : packet) : packet :=
  match r with
  | Some r =>
      let fail :=
        mkDecodeFailure (fmt_Errorf_v r)
          (match last p with
           | None => data p
           | Some l => Layer_LayerPayload l
           end) in
      packet_AddLayer (FailureLayer fail) p
  | None => p
  end.

(** What [recover()] sees after [err := Decode(..); if err != nil
    { panic(err) }]. *)
Definition recovered (o : Outcome) : option any :=
  match o with
  | Returned None => None
  | Returned (Some e) => Some (anyError e)
  | Panicked v => Some v
  end.

(** ** The eager engine *)

Definition noLayersError : error :=
  errors_New "NextDecoder called, but no layers added yet".

(** [Decode] is the call [next.Decode(d, p)]. *)
Definition eagerPacket_NextDecoder
    (Decode : Decoder -> slice -> packet -> packet * Outcome)
    (next : option Decoder) (p : packet) : packet * Outcome :=
  match next with
  | None => (p, Returned (Some nilDecoderError))
  | Some dec =>
      match last p with
      | None => (p, Returned (Some noLayersError))
      | Some l =>
          let d := Layer_LayerPayload l in
          if Nat.eqb (len d) 0 then (p, Returned None)
          else Decode dec d p
      end
  end.

(** Running a decoder body against an eager packet.  A panic unwinds
    through every caller. *)
Fixpoint eagerRun (h : heap) (body : DecodeBody) (p : packet)
  : packet * Outcome :=
  match body with
  | Return e => (p, Returned e)
  | Panic v => (p, Panicked v)
  | AddLayer l k => eagerRun h k (packet_AddLayer l p)
  | SetLayer r l k => eagerRun h k (packet_SetLayer r l p)
  | NextDecoder next k =>
      match eagerPacket_NextDecoder
              (fun dec d p' => eagerRun h (dec d (readSlice h d)) p')
              next p with
      | (p', Returned e) => eagerRun h (k e) p'
      | (p', Panicked v) => (p', Panicked v)
      end
  end.

Definition eagerPacket_initialDecode (h : heap) (dec : option Decoder)
    (p : packet) : packet :=
  let '(p', o) :=
    eagerRun h (Decoder_Decode dec (data p) (readSlice h (data p))) p in
  packet_recoverDecodeError (recovered o) p'.

(** ** The lazy engine *)

Record lazyPacket := mkLazy { lpacket : packet; next : option Decoder }.

Definition lazyPacket_NextDecoder (nxt : option Decoder) (p : lazyPacket)
  : lazyPacket * option error :=
  match nxt with
  | None => (p, Some nilDecoderError)
  | Some _ => (mkLazy (lpacket p) nxt, None)
  end.

(** Running a decoder body against a lazy packet: [NextDecoder] only
    records its argument. *)
Fixpoint lazyRun (body : DecodeBody) (p : lazyPacket) : lazyPacket * Outcome :=
  match body with
  | Return e => (p, Returned e)
  | Panic v => (p, Panicked v)
  | AddLayer l k => lazyRun k (mkLazy (packet_AddLayer l (lpacket p)) (next p))
  | SetLayer r l k =>
      lazyRun k (mkLazy (packet_SetLayer r l (lpacket p)) (next p))
  | NextDecoder nxt k =>
      let '(p', e) := lazyPacket_NextDecoder nxt p in
      lazyRun (k e) p'
  end.

Definition lazyPacket_decodeNextLayer (h : heap) (p : lazyPacket) : lazyPacket :=
  match next p with
  | None => p
  | Some nxt =>
      let d := match last (lpacket p) with
               | Some l => Layer_LayerPayload l
               | None => data (lpacket p)
               end in
      let p0 := mkLazy (lpacket p) None in
      if Nat.eqb (len d) 0 then p0
      else
        let '(p', o) := lazyRun (nxt d (readSlice h d)) p0 in
        mkLazy (packet_recoverDecodeError (recovered o) (lpacket p')) (next p')
  end.

(** [x == nil] *)
Definition isNil {A} (o : option A) : bool :=
  match o with None => true | Some _ => false end.

(** [for unset(p) && p.next != nil { p.decodeNextLayer() }] *)
Fixpoint lazyPacket_decodeWhile (h : heap) (unset : packet -> bool)
    (fuel : nat) (p : lazyPacket) : option lazyPacket :=
  if unset (lpacket p) && negb (isNil (next p)) then
    match fuel with
    | O => None
    | S fuel' =>
        lazyPacket_decodeWhile h unset fuel' (lazyPacket_decodeNextLayer h p)
    end
  else Some p.

Definition lazyPacket_LinkLayer (h : heap) (fuel : nat) (p : lazyPacket)
  : option (option Layer * lazyPacket) :=
  p' ← lazyPacket_decodeWhile h (fun q => isNil (link q)) fuel p;
  Some (link (lpacket p'), p').

Definition lazyPacket_NetworkLayer (h : heap) (fuel : nat) (p : lazyPacket)
  : option (option Layer * lazyPacket) :=
  p' ← lazyPacket_decodeWhile h (fun q => isNil (network q)) fuel p;
  Some (network (lpacket p'), p').

Definition lazyPacket_TransportLayer (h : heap) (fuel : nat) (p : lazyPacket)
  : option (option Layer * lazyPacket) :=
  p' ← lazyPacket_decodeWhile h (fun q => isNil (transport q)) fuel p;
  Some (transport (lpacket p'), p').

Definition lazyPacket_ApplicationLayer (h : heap) (fuel : nat) (p : lazyPacket)
  : option (option Layer * lazyPacket) :=
  p' ← lazyPacket_decodeWhile h (fun q => isNil (application q)) fuel p;
  Some (application (lpacket p'), p').

Definition lazyPacket_ErrorLayer (h : heap) (fuel : nat) (p : lazyPacket)
  : option (option Layer * lazyPacket) :=
  p' ← lazyPacket_decodeWhile h (fun q => isNil (failure q)) fuel p;
  Some (failure (lpacket p'), p').

Definition lazyPacket_Layers (h : heap) (fuel : nat) (p : lazyPacket)
  : option (list Layer * lazyPacket) :=
  p' ← lazyPacket_decodeWhile h (fun _ => true) fuel p;
  Some (layers (lpacket p'), p').

(** [for _, l := range ls { if hit(l) { return l } }] *)
Fixpoint firstLayer (hit : Layer -> bool) (ls : list Layer) : option Layer :=
  match ls with
  | [] => None
  | l :: ls' => if hit l then Some l else firstLayer hit ls'
  end.

(** The second loop of [lazyPacket.Layer] and [lazyPacket.LayerClass]:
    decode one step, look at [p.layers[numLayers:]] only. *)
Fixpoint lazyPacket_scanNew (h : heap) (hit : Layer -> bool) (fuel : nat)
    (numLayers : nat) (p : lazyPacket) : option (option Layer * lazyPacket) :=
  match next p with
  | None => Some (None, p)
  | Some _ =>
      match fuel with
      | O => None
      | S fuel' =>
          let p' := lazyPacket_decodeNextLayer h p in
          match firstLayer hit (drop numLayers (layers (lpacket p'))) with
          | Some l => Some (Some l, p')
          | None =>
              lazyPacket_scanNew h hit fuel' (length (layers (lpacket p'))) p'
          end
      end
  end.

Definition lazyPacket_lookup (h : heap) (hit : Layer -> bool) (fuel : nat)
    (p : lazyPacket) : option (option Layer * lazyPacket) :=
  match firstLayer hit (layers (lpacket p)) with
  | Some l => Some (Some l, p)
  | None => lazyPacket_scanNew h hit fuel (length (layers (lpacket p))) p
  end.

Definition lazyPacket_Layer (h : heap) (t : LayerType) :=
  lazyPacket_lookup h (fun l => Z.eqb (Layer_LayerType l) t).

Definition lazyPacket_LayerClass (h : heap) (lc : LayerClass) :=
  lazyPacket_lookup h (fun l => lc (Layer_LayerType l)).

(** ** The Packet interface and its construction *)

Inductive Packet :=
| EagerPacket (p : packet)
| LazyPacket (p : lazyPacket).

Definition Packet_packet (pk : Packet) : packet :=
  match pk with
  | EagerPacket p => p
  | LazyPacket p => lpacket p
  end.

Definition eagerPacket_Layer (t : LayerType) (p : packet) : option Layer :=
  firstLayer (fun l => Z.eqb (Layer_LayerType l) t) (layers p).

Definition eagerPacket_LayerClass (lc : LayerClass) (p : packet) : option Layer :=
  firstLayer (fun l => lc (Layer_LayerType l)) (layers p).

(** The accessors of the interface; each returns its result and the
    packet as the call leaves it. *)
Inductive Accessor :=
| CallLinkLayer | CallNetworkLayer | CallTransportLayer
| CallApplicationLayer | CallErrorLayer
| CallLayer (t : LayerType) | CallLayerClass (lc : LayerClass).

Definition eagerPacket_call (a : Accessor) (p : packet) : option Layer :=
  match a with
  | CallLinkLayer => link p
  | CallNetworkLayer => network p
  | CallTransportLayer => transport p
  | CallApplicationLayer => application p
  | CallErrorLayer => failure p
  | CallLayer t => eagerPacket_Layer t p
  | CallLayerClass lc => eagerPacket_LayerClass lc p
  end.

Definition Packet_call (h : heap) (a : Accessor) (fuel : nat) (pk : Packet)
  : option (option Layer * Packet) :=
  match pk with
  | EagerPacket p => Some (eagerPacket_call a p, pk)
  | LazyPacket p =>
      '(l, p') ← match a with
                 | CallLinkLayer => lazyPacket_LinkLayer h fuel p
                 | CallNetworkLayer => lazyPacket_NetworkLayer h fuel p
                 | CallTransportLayer => lazyPacket_TransportLayer h fuel p
                 | CallApplicationLayer => lazyPacket_ApplicationLayer h fuel p
                 | CallErrorLayer => lazyPacket_ErrorLayer h fuel p
                 | CallLayer t => lazyPacket_Layer h t fuel p
                 | CallLayerClass lc => lazyPacket_LayerClass h lc fuel p
                 end;
      Some (l, LazyPacket p')
  end.

Definition Packet_Layers (h : heap) (fuel : nat) (pk : Packet)
  : option (list Layer * Packet) :=
  match pk with
  | EagerPacket p => Some (layers p, pk)
  | LazyPacket p =>
      '(ls, p') ← lazyPacket_Layers h fuel p; Some (ls, LazyPacket p')
  end.

Definition Packet_Data (pk : Packet) : slice := packet_Data (Packet_packet pk).

Definition Packet_setCaptureInfo (ci : CaptureInfo) (pk : Packet) : Packet :=
  match pk with
  | EagerPacket p => EagerPacket (packet_setCaptureInfo ci p)
  | LazyPacket p => LazyPacket (mkLazy (packet_setCaptureInfo ci (lpacket p)) (next p))
  end.

Record DecodeOptions := mkOptions { Lazy : bool; NoCopy : bool }.

Definition Default : DecodeOptions := mkOptions false false.

Definition NewPacket (h : heap) (data : slice)
    (firstLayerDecoder : option Decoder) (options : DecodeOptions)
  : heap * Packet :=
  let '(h, data) :=
    if negb (NoCopy options) then
      let '(h1, dataCopy) := make h (len data) in
      (copy h1 dataCopy data, dataCopy)
    else (h, data) in
  if Lazy options then
    (h, LazyPacket (mkLazy (newPacketStruct data) firstLayerDecoder))
  else
    (h, EagerPacket (eagerPacket_initialDecode h firstLayerDecoder
                       (newPacketStruct data))).

(** ** PacketSource *)

(** What one [ReadPacketData] call returns. *)
Inductive ReadResult :=
| ReadOk (data : slice) (ci : CaptureInfo)
| ReadErr (e : error).

(** A [PacketDataSource] is known by the results of its successive
    reads; the bytes it returns are already in the heap. *)
Record PacketDataSource := mkSource { reads : nat -> ReadResult; pos : nat }.

Definition ReadPacketData (s : PacketDataSource) : PacketDataSource * ReadResult :=
  (mkSource (reads s) (S (pos s)), reads s (pos s)).

(** Two reads, then [io.EOF]. *)
Definition sampleCaptureInfo (k : nat) : CaptureInfo :=
  mkCaptureInfo true (Z.of_nat k) 3%Z 3%Z.

Definition sampleSource : PacketDataSource :=
  mkSource (fun k => if Nat.ltb k 2 then ReadOk sampleData (sampleCaptureInfo k)
                     else ReadErr io_EOF) 0.

(** A read that fails, a read that succeeds, then [io.EOF]. *)
Definition flakySource : PacketDataSource :=
  mkSource (fun k => match k with
                     | 0 => ReadErr (errors_New "read timeout")
                     | 1 => ReadOk sampleData (sampleCaptureInfo 1)
                     | _ => ReadErr io_EOF
                     end) 0.

(** Every read fails, none with [io.EOF]. *)
Definition brokenSource : PacketDataSource :=
  mkSource (fun _ => ReadErr (errors_New "read timeout")) 0.

Record PacketSource := mkPacketSource {
  source : PacketDataSource;
  decoder : option Decoder;
  options : DecodeOptions
}.

Definition NewPacketSource (s : PacketDataSource) (dec : option Decoder)
  : PacketSource := mkPacketSource s dec Default.

Definition PacketSource_NextPacket (h : heap) (p : PacketSource)
  : heap * PacketSource * (option Packet * option error) :=
  let '(s', r) := ReadPacketData (source p) in
  let p' := mkPacketSource s' (decoder p) (options p) in
  match r with
  | ReadErr e => (h, p', (None, Some e))
  | ReadOk d ci =>
      let '(h', pk) := NewPacket h d (decoder p) (options p) in
      (h', p', (Some (Packet_setCaptureInfo ci pk), None))
  end.

(** What the goroutine of [Packets] does to its channel. *)
Inductive ChanEvent :=
| Send (pk : option Packet)
| Close.

(** The loop of [packetsToChannel], as the list of channel operations it
    performs; it ends only on [io.EOF]. *)
Fixpoint PacketSource_packetsToChannel (fuel : nat) (h : heap)
    (p : PacketSource) : option (list ChanEvent) :=
  match fuel with
  | O => None
  | S fuel' =>
      let '(h', p', (pk, e)) := PacketSource_NextPacket h p in
      match e with
      | Some e' =>
          if is_EOF e' then Some [Close]
          else PacketSource_packetsToChannel fuel' h' p'
      | None =>
          evs ← PacketSource_packetsToChannel fuel' h' p';
          Some (Send pk :: evs)
      end
  end.

(** [n] successive calls of [NextPacket], with what each returned. *)
Fixpoint PacketSource_NextPackets (n : nat) (h : heap) (p : PacketSource)
  : list (option Packet * option error) :=
  match n with
  | O => []
  | S n' =>
      let '(h', p', r) := PacketSource_NextPacket h p in
      r :: PacketSource_NextPackets n' h' p'
  end.

(** The source gives [n] successful reads, [ds k] with metadata [cis k],
    and then [io.EOF]. *)
Definition YieldsThenEOF (s : PacketDataSource) (n : nat)
    (ds : nat -> slice) (cis : nat -> CaptureInfo) : Prop :=
  (forall k, k < n -> reads s (pos s + k) = ReadOk (ds k) (cis k)) /\
  reads s (pos s + n) = ReadErr io_EOF.

(** [n] successive calls of [decodeNextLayer]. *)
Fixpoint lazyPacket_steps (h : heap) (n : nat) (p : lazyPacket) : lazyPacket :=
  match n with
  | O => p
  | S n' => lazyPacket_steps h n' (lazyPacket_decodeNextLayer h p)
  end.

(** What a decode step leaves behind once the decoder has been run:
    the deferred [recoverDecodeError] acts on the packet, the pending
    decoder is whatever the body queued. *)
Definition lazyPacket_afterDecode (r : lazyPacket * Outcome) : lazyPacket :=
  mkLazy (packet_recoverDecodeError (recovered (snd r)) (lpacket (fst r)))
         (next (fst r)).

(** The pointer a role getter reads. *)
Definition rolePointer (r : Role) (p : packet) : option Layer :=
  match r with
  | RLink => link p
  | RNetwork => network p
  | RTransport => transport p
  | RApplication => application p
  | RError => failure p
  end.

(** The accessor that reads the pointer of a role. *)
Definition roleGetter (r : Role) : Accessor :=
  match r with
  | RLink => CallLinkLayer
  | RNetwork => CallNetworkLayer
  | RTransport => CallTransportLayer
  | RApplication => CallApplicationLayer
  | RError => CallErrorLayer
  end.

(** The target of an accessor is satisfied when reading the packet as it
    stands already gives a layer. *)
Definition satisfied (a : Accessor) (p : packet) : bool :=
  negb (isNil (eagerPacket_call a p)).

(** The slice the next decoder is run on: [p.last.LayerPayload()], or
    [p.data] when no layer has been added. *)
Definition handedPayload (p : packet) : slice :=
  match last p with
  | Some l => Layer_LayerPayload l
  | None => data p
  end.

(** A property of the packet that [AddLayer] and the role setters keep. *)
Definition BuilderStable (I : packet -> Prop) : Prop :=
  (forall l p, I p -> I (packet_AddLayer l p)) /\
  (forall r l p, I p -> I (packet_SetLayer r l p)).

(** Once queued, [d] is followed by finitely many decode steps. *)
Definition Settles (d : Decoder) : Prop :=
  forall h pk, exists n,
    next (lazyPacket_steps h n (mkLazy pk (Some d))) = None.

(** Decoder bodies that chain the way the layers of a protocol stack do:
    [NextDecoder] is called with a decoder only once the packet has a
    layer, as the last thing the body does, and its result is what the
    body returns.  [has] tells whether a layer is known to be present. *)
Inductive Chained : bool -> DecodeBody -> Prop :=
| Chained_Return has e : Chained has (Return e)
| Chained_Panic has v : Chained has (Panic v)
| Chained_AddLayer has l k : Chained true k -> Chained has (AddLayer l k)
| Chained_SetLayer has r l k : Chained has k -> Chained has (SetLayer r l k)
| Chained_NextNil has k :
    Chained has (k (Some nilDecoderError)) -> Chained has (NextDecoder None k)
| Chained_Next (dec : Decoder) k :
    (forall e, k e = Return e) ->
    (forall d bs, Chained true (dec d bs)) ->
    Chained true (NextDecoder (Some dec) k).

Definition eagerPacket_afterDecode (r : packet * Outcome) : packet :=
  packet_recoverDecodeError (recovered (snd r)) (fst r).

(** [s] is empty or lies in the backing array [b]. *)
Definition inArray (b : nat) (s : slice) : Prop := len s = 0 \/ base s = b.

(** Decoder bodies that cut their layers out of the array they were
    handed a slice of, as do the decoders they queue. *)
Inductive Slicing (b : nat) : DecodeBody -> Prop :=
| Slicing_Return e : Slicing b (Return e)
| Slicing_Panic v : Slicing b (Panic v)
| Slicing_AddLayer l k :
    inArray b (Layer_LayerPayload l) -> Slicing b k -> Slicing b (AddLayer l k)
| Slicing_SetLayer r l k : Slicing b k -> Slicing b (SetLayer r l k)
| Slicing_NextNil k : (forall e, Slicing b (k e)) -> Slicing b (NextDecoder None k)
| Slicing_Next (dec : Decoder) k :
    (forall d bs, inArray b d -> Slicing b (dec d bs)) ->
    (forall e, Slicing b (k e)) ->
    Slicing b (NextDecoder (Some dec) k).

Definition SlicingDecoder (b : nat) (dec : option Decoder) : Prop :=
  match dec with
  | Some f => forall d bs, inArray b d -> Slicing b (f d bs)
  | None => True
  end.

(** The packet reads from the array [b] only. *)
Definition Owned (b : nat) (p : packet) : Prop :=
  inArray b (data p) /\
  Forall (fun l => inArray b (Layer_LayerPayload l)) (layers p) /\
  (forall l, last p = Some l -> inArray b (Layer_LayerPayload l)).

(** A failure layer built on a slice of the array hands on a slice of
    the array. *)
Definition FailurePayloadWithin : Prop :=
  forall b f, inArray b (fdata f) -> inArray b (DecodeFailure_LayerPayload f).

Definition OwnedPacket (b : nat) (pk : Packet) : Prop :=
  Owned b (Packet_packet pk) /\
  match pk with
  | EagerPacket _ => True
  | LazyPacket p => SlicingDecoder b (next p)
  end.

(** ** Printing *)

(** The [String] methods of [LayerType] and of a layer are declared
    outside packet.go and taken as parameters. *)
Variable LayerType_String : LayerType -> string.
Variable Layer_String : Layer -> string.

(** [%d] *)
Definition fmt_d (n : nat) : string := NilZero.string_of_uint (Nat.to_uint n).

Definition newline : string := String (Ascii.ascii_of_nat 10) EmptyString.

(** One turn of the loop of [packetString], for index [i]. *)
Definition layerBlock (i : nat) (l : Layer) : string :=
  String.append
    (String.append "--- Layer "
       (String.append (fmt_d (i + 1))
          (String.append ": "
             (String.append (LayerType_String (Layer_LayerType l))
                (String.append " ---" newline)))))
    (String.append (Layer_String l) newline).

(** [for i, l := range pLayers { ... }], starting at index [i]. *)
Fixpoint packetString_from (i : nat) (pLayers : list Layer) : string :=
  match pLayers with
  | [] => EmptyString
  | l :: rest => String.append (layerBlock i l) (packetString_from (S i) rest)
  end.

Definition packetString (pLayers : list Layer) : string :=
  packetString_from 0 pLayers.

(** [String() string { return packetString(p.Layers()) }] *)
Definition Packet_String (h : heap) (fuel : nat) (pk : Packet)
  : option (string * Packet) :=
  '(ls, pk') ← Packet_Layers h fuel pk; Some (packetString ls, pk').

(** ** Further notions used in the properties *)

(** [p.last] is the final element of [p.layers]. *)
Definition LastIsFinal (p : packet) : Prop := last p = list.last (layers p).

Definition isFailure (l : Layer) : bool :=
  match l with FailureLayer _ => true | ProtocolLayer _ _ _ => false end.

(** Decoder bodies that add no failure layer of their own, as do the
    decoders they queue. *)
Inductive AddsNoFailure : DecodeBody -> Prop :=
| AddsNoFailure_Return e : AddsNoFailure (Return e)
| AddsNoFailure_Panic v : AddsNoFailure (Panic v)
| AddsNoFailure_AddLayer l k :
    isFailure l = false -> AddsNoFailure k -> AddsNoFailure (AddLayer l k)
| AddsNoFailure_SetLayer r l k : AddsNoFailure k -> AddsNoFailure (SetLayer r l k)
| AddsNoFailure_NextNil k :
    (forall e, AddsNoFailure (k e)) -> AddsNoFailure (NextDecoder None k)
| AddsNoFailure_Next (dec : Decoder) k :
    (forall d bs, AddsNoFailure (dec d bs)) ->
    (forall e, AddsNoFailure (k e)) ->
    AddsNoFailure (NextDecoder (Some dec) k).

Definition DecoderAddsNoFailure (dec : option Decoder) : Prop :=
  match dec with
  | Some f => forall d bs, AddsNoFailure (f d bs)
  | None => True
  end.

(** Protocol layers, then at most one failure layer. *)
Definition FailureOnlyLast (ls : list Layer) : Prop :=
  exists protos tl,
    ls = protos ++ tl /\
    Forall (fun l => isFailure l = false) protos /\
    (tl = [] \/ exists f, tl = [FailureLayer f]).

(** The packets that came without an error, in order. *)
Fixpoint deliveredPackets (rs : list (option Packet * option error))
  : list (option Packet) :=
  match rs with
  | [] => []
  | (pk, None) :: rs' => pk :: deliveredPackets rs'
  | (_, Some _) :: rs' => deliveredPackets rs'
  end.

(** What holds of a packet whose decoders add no failure layer of their
    own: [p.last] is the final layer, a failure layer can only be the
    final layer, and the pending decoder is of the same kind. *)
Definition FailureTerminal (pk : Packet) : Prop :=
  LastIsFinal (Packet_packet pk) /\
  FailureOnlyLast (layers (Packet_packet pk)) /\
  match pk with
  | EagerPacket _ => True
  | LazyPacket p => DecoderAddsNoFailure (next p)
  end.

(** The source and the heap after [n] calls of [NextPacket]. *)
Fixpoint PacketSource_after (n : nat) (h : heap) (p : PacketSource)
  : heap * PacketSource :=
  match n with
  | O => (h, p)
  | S n' =>
      let '(h', p', _) := PacketSource_NextPacket h p in
      PacketSource_after n' h' p'
  end.

(** Decoder bodies that never claim the role [r], as do the decoders
    they queue. *)
Inductive NeverClaims (r : Role) : DecodeBody -> Prop :=
| NeverClaims_Return e : NeverClaims r (Return e)
| NeverClaims_Panic v : NeverClaims r (Panic v)
| NeverClaims_AddLayer l k : NeverClaims r k -> NeverClaims r (AddLayer l k)
| NeverClaims_SetLayer r' l k :
    r' <> r -> NeverClaims r k -> NeverClaims r (SetLayer r' l k)
| NeverClaims_NextNil k :
    (forall e, NeverClaims r (k e)) -> NeverClaims r (NextDecoder None k)
| NeverClaims_Next (dec : Decoder) k :
    (forall d bs, NeverClaims r (dec d bs)) ->
    (forall e, NeverClaims r (k e)) ->
    NeverClaims r (NextDecoder (Some dec) k).

Definition DecoderNeverClaims (r : Role) (dec : option Decoder) : Prop :=
  match dec with
  | Some f => forall d bs, NeverClaims r (f d bs)
  | None => True
  end.

(** The role [r] is unclaimed and will not be claimed by what is pending. *)
Definition Unclaimed (r : Role) (pk : Packet) : Prop :=
  rolePointer r (Packet_packet pk) = None /\
  match pk with
  | EagerPacket _ => True
  | LazyPacket p => DecoderNeverClaims r (next p)
  end.

(** ** Induction on decoder bodies *)

Section DecodeBodyInduction.
Variable P : DecodeBody -> Prop.
Hypothesis HReturn : forall e, P (Return e).
Hypothesis HPanic : forall v, P (Panic v).
Hypothesis HAddLayer : forall l k, P k -> P (AddLayer l k).
Hypothesis HSetLayer : forall r l k, P k -> P (SetLayer r l k).
Hypothesis HNextNil :
  forall k, (forall e, P (k e)) -> P (NextDecoder None k).
Hypothesis HNext :
  forall (dec : Decoder) k,
    (forall d bs, P (dec d bs)) -> (forall e, P (k e)) ->
    P (NextDecoder (Some dec) k).

Fixpoint DecodeBody_ind (b : DecodeBody) : P b :=
  match b with
  | Return e => HReturn e
  | Panic v => HPanic v
  | AddLayer l k => HAddLayer l k (DecodeBody_ind k)
  | SetLayer r l k => HSetLayer r l k (DecodeBody_ind k)
  | NextDecoder None k => HNextNil k (fun e => DecodeBody_ind (k e))
  | NextDecoder (Some dec) k =>
      HNext dec k (fun d bs => DecodeBody_ind (dec d bs))
            (fun e => DecodeBody_ind (k e))
  end.
End DecodeBodyInduction.

(** ** Properties kept by every builder call *)

Lemma recoverDecodeError_stable I r p :
  BuilderStable I -> I p -> I (packet_recoverDecodeError r p).
Proof.
  intros [Hadd _] Hp. destruct r as [v|]; simpl; [apply Hadd|]; exact Hp.
Qed.

(** The four ways a [NextDecoder] call on an eager packet can go. *)
Lemma eagerRun_NextDecoder_nil h k p :
  eagerRun h (NextDecoder None k) p = eagerRun h (k (Some nilDecoderError)) p.
Proof. reflexivity. Qed.

Lemma eagerRun_NextDecoder_noLayer h (dec : Decoder) k p :
  last p = None ->
  eagerRun h (NextDecoder (Some dec) k) p
  = eagerRun h (k (Some noLayersError)) p.
Proof. intros H. simpl. rewrite H. reflexivity. Qed.

Lemma eagerRun_NextDecoder_empty h (dec : Decoder) k p l :
  last p = Some l -> len (Layer_LayerPayload l) = 0 ->
  eagerRun h (NextDecoder (Some dec) k) p = eagerRun h (k None) p.
Proof. intros H H0. simpl. rewrite H, H0. reflexivity. Qed.

Lemma eagerRun_NextDecoder_call h (dec : Decoder) k p l :
  last p = Some l -> len (Layer_LayerPayload l) <> 0 ->
  eagerRun h (NextDecoder (Some dec) k) p
  = match eagerRun h (dec (Layer_LayerPayload l)
                          (readSlice h (Layer_LayerPayload l))) p with
    | (p', Returned e) => eagerRun h (k e) p'
    | (p', Panicked v) => (p', Panicked v)
    end.
Proof.
  intros H H0. simpl. rewrite H.
  destruct (Nat.eqb_spec (len (Layer_LayerPayload l)) 0); [contradiction|].
  reflexivity.
Qed.

Lemma eagerRun_stable I h body :
  BuilderStable I -> forall p, I p -> I (fst (eagerRun h body p)).
Proof.
  intros [Hadd Hset].
  induction body as [e|v|l k IH|r l k IH|k IH|dec k IHdec IH]
    using DecodeBody_ind; intros p Hp.
  - exact Hp.
  - exact Hp.
  - simpl. apply IH, Hadd, Hp.
  - simpl. apply IH, Hset, Hp.
  - rewrite eagerRun_NextDecoder_nil. apply IH, Hp.
  - destruct (last p) as [l|] eqn:Hl.
    + destruct (Nat.eq_dec (len (Layer_LayerPayload l)) 0) as [H0|H0].
      * rewrite (eagerRun_NextDecoder_empty _ _ _ _ _ Hl H0). apply IH, Hp.
      * rewrite (eagerRun_NextDecoder_call _ _ _ _ _ Hl H0).
        specialize (IHdec (Layer_LayerPayload l)
                          (readSlice h (Layer_LayerPayload l)) p Hp).
        destruct (eagerRun h (dec _ _) p) as [p' [e|v]]; simpl in IHdec.
        -- apply IH, IHdec.
        -- exact IHdec.
    + rewrite (eagerRun_NextDecoder_noLayer _ _ _ _ Hl). apply IH, Hp.
Qed.

Lemma lazyRun_stable I body :
  BuilderStable I ->
  forall p, I (lpacket p) -> I (lpacket (fst (lazyRun body p))).
Proof.
  intros [Hadd Hset].
  induction body as [e|v|l k IH|r l k IH|k IH|dec k IHdec IH]
    using DecodeBody_ind; intros p Hp; simpl.
  - exact Hp.
  - exact Hp.
  - apply IH. simpl. apply Hadd, Hp.
  - apply IH. simpl. apply Hset, Hp.
  - apply IH, Hp.
  - apply IH. exact Hp.
Qed.

Lemma decodeNextLayer_stable I h p :
  BuilderStable I ->
  I (lpacket p) -> I (lpacket (lazyPacket_decodeNextLayer h p)).
Proof.
  intros HI Hp. unfold lazyPacket_decodeNextLayer.
  destruct (next p) as [nxt|]; [|exact Hp].
  match goal with |- context [Nat.eqb ?n 0] => destruct (Nat.eqb n 0) end;
    [exact Hp|].
  match goal with |- context [lazyRun ?b ?q] =>
    pose proof (lazyRun_stable I b HI q Hp) as H;
    destruct (lazyRun b q) as [p' o] end.
  simpl in *. apply recoverDecodeError_stable; assumption.
Qed.

Lemma decodeWhile_stable I h unset fuel :
  BuilderStable I ->
  forall p p', I (lpacket p) ->
    lazyPacket_decodeWhile h unset fuel p = Some p' -> I (lpacket p').
Proof.
  intros HI. induction fuel as [|fuel IH]; intros p p' Hp; simpl;
    destruct (unset (lpacket p) && negb (isNil (next p)));
    intros H; try discriminate; try (injection H as <-; exact Hp).
  eapply IH; [|exact H]. apply decodeNextLayer_stable; assumption.
Qed.

Lemma scanNew_stable I h hit fuel :
  BuilderStable I ->
  forall n p res p', I (lpacket p) ->
    lazyPacket_scanNew h hit fuel n p = Some (res, p') -> I (lpacket p').
Proof.
  intros HI. induction fuel as [|fuel IH]; intros n p res p' Hp; simpl;
    destruct (next p) eqn:Hn; intros H; try discriminate;
    try (injection H as <- <-; exact Hp).
  pose proof (decodeNextLayer_stable I h p HI Hp) as Hq.
  destruct (firstLayer hit _).
  - injection H as <- <-. exact Hq.
  - eapply IH; [exact Hq | exact H].
Qed.

Lemma Packet_call_stable I h a fuel pk res pk' :
  BuilderStable I -> I (Packet_packet pk) ->
  Packet_call h a fuel pk = Some (res, pk') -> I (Packet_packet pk').
Proof.
  intros HI Hp. destruct pk as [p|p]; simpl.
  - intros H; injection H as <- <-; exact Hp.
  - simpl in Hp.
    assert (Hw : forall unset (get : packet -> option Layer) r q,
      (p' ← lazyPacket_decodeWhile h unset fuel p; Some (get (lpacket p'), p'))
        = Some (r, q) -> I (lpacket q)).
    { intros unset get r q H.
      destruct (lazyPacket_decodeWhile h unset fuel p) as [p1|] eqn:E;
        simpl in H; [|discriminate].
      injection H as <- <-. eapply decodeWhile_stable; eauto. }
    assert (Hl : forall hit r q,
      lazyPacket_lookup h hit fuel p = Some (r, q) -> I (lpacket q)).
    { intros hit r q. unfold lazyPacket_lookup.
      destruct (firstLayer hit _).
      - intros H; injection H as <- <-; exact Hp.
      - intros H. eapply scanNew_stable; eauto. }
    destruct a; simpl;
      match goal with |- context [mbind _ ?c] =>
        destruct c as [[r q]|] eqn:E end; simpl; intros H;
      try discriminate; injection H as <- <-; simpl;
      first [ eapply Hw; exact E | eapply Hl; exact E ].
Qed.

Lemma rolePointer_stable r l0 :
  BuilderStable (fun p => rolePointer r p = Some l0).
Proof.
  split.
  - intros l p H. destruct r; exact H.
  - intros r' l p H. destruct r, r'; simpl in *;
      unfold packet_SetLinkLayer, packet_SetNetworkLayer,
        packet_SetTransportLayer, packet_SetApplicationLayer,
        packet_SetErrorLayer;
      repeat match goal with |- context [match ?x with _ => _ end] =>
        destruct x eqn:? end; simpl; congruence.
Qed.

(** ** The decode step, case by case *)

Lemma decodeNextLayer_idle h p :
  next p = None -> lazyPacket_decodeNextLayer h p = p.
Proof. intros H. unfold lazyPacket_decodeNextLayer. rewrite H. reflexivity. Qed.

Lemma decodeNextLayer_empty h p nxt :
  next p = Some nxt -> len (handedPayload (lpacket p)) = 0 ->
  lazyPacket_decodeNextLayer h p = mkLazy (lpacket p) None.
Proof.
  intros H H0. unfold lazyPacket_decodeNextLayer, handedPayload in *.
  rewrite H. destruct (last (lpacket p)); rewrite H0; reflexivity.
Qed.

Lemma decodeNextLayer_run h p nxt :
  next p = Some nxt -> len (handedPayload (lpacket p)) <> 0 ->
  lazyPacket_decodeNextLayer h p
  = lazyPacket_afterDecode
      (lazyRun (nxt (handedPayload (lpacket p))
                    (readSlice h (handedPayload (lpacket p))))
               (mkLazy (lpacket p) None)).
Proof.
  intros H H0. unfold lazyPacket_decodeNextLayer, lazyPacket_afterDecode.
  rewrite H. fold (handedPayload (lpacket p)).
  destruct (Nat.eqb_spec (len (handedPayload (lpacket p))) 0);
    [contradiction|].
  destruct (lazyRun _ _) as [p' o]. reflexivity.
Qed.

Lemma steps_idle h n p : next p = None -> lazyPacket_steps h n p = p.
Proof.
  intros H. induction n as [|n IH]; simpl; [reflexivity|].
  rewrite decodeNextLayer_idle by exact H. exact IH.
Qed.

Lemma steps_add h n m p :
  lazyPacket_steps h (n + m) p = lazyPacket_steps h m (lazyPacket_steps h n p).
Proof. revert p. induction n as [|n IH]; intros p; simpl; auto. Qed.

(** ** Every lazy loop ends *)

Lemma lazyRun_settles body :
  forall p, (forall d, next p = Some d -> Settles d) ->
  forall d, next (fst (lazyRun body p)) = Some d -> Settles d.
Proof.
  induction body as [e|v|l k IH|r l k IH|k IH|dec k IHdec IH]
    using DecodeBody_ind; intros p Hp d; simpl.
  - apply Hp.
  - apply Hp.
  - apply IH. exact Hp.
  - apply IH. exact Hp.
  - apply IH. exact Hp.
  - apply IH. simpl. intros d' Hd'. injection Hd' as <-.
    intros h pk.
    destruct (Nat.eq_dec (len (handedPayload pk)) 0) as [H0|H0].
    + exists 1. simpl.
      rewrite (decodeNextLayer_empty h _ dec) by (simpl; auto). reflexivity.
    + pose proof (decodeNextLayer_run h (mkLazy pk (Some dec)) dec
                    eq_refl H0) as Hrun. simpl in Hrun.
      specialize (IHdec (handedPayload pk) (readSlice h (handedPayload pk))
                        (mkLazy pk None)).
      destruct (lazyRun _ (mkLazy pk None)) as [p' o].
      unfold lazyPacket_afterDecode in Hrun. simpl in *.
      destruct (next p') as [d'|] eqn:Hn.
      * destruct (IHdec ltac:(discriminate) d' eq_refl h
                   (packet_recoverDecodeError (recovered o) (lpacket p')))
          as [n Hn'].
        exists (S n). simpl. rewrite Hrun. exact Hn'.
      * exists 1. simpl. rewrite Hrun. reflexivity.
Qed.

Lemma every_decoder_settles (d : Decoder) : Settles d.
Proof.
  apply (lazyRun_settles (NextDecoder (Some d) (fun _ => Return None))
           (mkLazy (newPacketStruct nilSlice) None)).
  - simpl. discriminate.
  - reflexivity.
Qed.

Lemma lazy_drains h p : exists n, next (lazyPacket_steps h n p) = None.
Proof.
  destruct p as [pk [d|]].
  - apply every_decoder_settles.
  - exists 0. reflexivity.
Qed.

Lemma decodeWhile_enough h unset n :
  forall p fuel, next (lazyPacket_steps h n p) = None -> n <= fuel ->
    is_Some (lazyPacket_decodeWhile h unset fuel p).
Proof.
  induction n as [|n IH]; intros p fuel Hn Hle.
  - simpl in Hn. destruct fuel; simpl; rewrite Hn;
      rewrite andb_false_r; eauto.
  - destruct fuel as [|fuel]; [lia|]. simpl.
    destruct (unset (lpacket p) && negb (isNil (next p))); eauto.
    apply IH; [exact Hn | lia].
Qed.

Lemma scanNew_enough h hit n :
  forall p fuel k, next (lazyPacket_steps h n p) = None -> n <= fuel ->
    is_Some (lazyPacket_scanNew h hit fuel k p).
Proof.
  induction n as [|n IH]; intros p fuel k Hn Hle.
  - simpl in Hn. destruct fuel; simpl; rewrite Hn; eauto.
  - destruct fuel as [|fuel]; [lia|]. simpl.
    destruct (next p); eauto.
    destruct (firstLayer hit _); eauto.
    apply IH; [exact Hn | lia].
Qed.


(** ** Eager decoding against drained lazy decoding *)

Lemma SetLayer_last r l p : last (packet_SetLayer r l p) = last p.
Proof.
  destruct r; simpl;
    unfold packet_SetLinkLayer, packet_SetNetworkLayer,
      packet_SetTransportLayer, packet_SetApplicationLayer,
      packet_SetErrorLayer;
    match goal with |- context [match ?x with _ => _ end] => destruct x end;
    reflexivity.
Qed.

Lemma chained_agree h has body :
  Chained has body ->
  forall p, (has = true -> is_Some (last p)) ->
  exists n,
    lazyPacket_steps h n (lazyPacket_afterDecode (lazyRun body (mkLazy p None)))
    = mkLazy (eagerPacket_afterDecode (eagerRun h body p)) None.
Proof.
  induction 1 as [has e|has v|has l k Hk IH|has r l k Hk IH|has k Hk IH
                 |dec k Hret Hdec IH]; intros p Hlast.
  - exists 0. reflexivity.
  - exists 0. reflexivity.
  - simpl. apply IH. intros _. simpl. eauto.
  - simpl. apply IH. rewrite SetLayer_last. exact Hlast.
  - rewrite eagerRun_NextDecoder_nil. simpl. apply IH. exact Hlast.
  - destruct (Hlast eq_refl) as [l Hl].
    assert (Hlazy : lazyPacket_afterDecode
                      (lazyRun (NextDecoder (Some dec) k) (mkLazy p None))
                    = mkLazy p (Some dec)).
    { simpl. rewrite Hret. reflexivity. }
    rewrite Hlazy.
    assert (Hpay : handedPayload p = Layer_LayerPayload l).
    { unfold handedPayload. rewrite Hl. reflexivity. }
    destruct (Nat.eq_dec (len (Layer_LayerPayload l)) 0) as [H0|H0].
    + rewrite (eagerRun_NextDecoder_empty _ _ _ _ _ Hl H0), Hret.
      exists 1. simpl.
      rewrite (decodeNextLayer_empty h _ dec) by (simpl; congruence).
      reflexivity.
    + rewrite (eagerRun_NextDecoder_call _ _ _ _ _ Hl H0).
      destruct (IH (Layer_LayerPayload l)
                   (readSlice h (Layer_LayerPayload l)) p Hlast) as [n Hn].
      exists (S n). simpl.
      rewrite (decodeNextLayer_run h _ dec) by (simpl; congruence).
      simpl. rewrite Hpay, Hn. f_equal.
      destruct (eagerRun h (dec _ _) p) as [p' [e|v]];
        [rewrite Hret|]; reflexivity.
Qed.

Lemma decodeWhile_drain h n :
  forall p q fuel, lazyPacket_steps h n p = q -> next q = None -> n <= fuel ->
    lazyPacket_decodeWhile h (fun _ => true) fuel p = Some q.
Proof.
  induction n as [|n IH]; intros p q fuel Hs Hq Hle.
  - simpl in Hs. subst q. destruct fuel; simpl; rewrite Hq; reflexivity.
  - destruct fuel as [|fuel]; [lia|]. simpl in *.
    destruct (next p) eqn:Hp; simpl.
    + apply IH; [exact Hs|exact Hq|lia].
    + rewrite decodeNextLayer_idle in Hs by exact Hp.
      rewrite steps_idle in Hs by exact Hp. congruence.
Qed.

(** ** The layer list only grows *)

Lemma SetLayer_layers r l p : layers (packet_SetLayer r l p) = layers p.
Proof.
  destruct r; simpl;
    unfold packet_SetLinkLayer, packet_SetNetworkLayer,
      packet_SetTransportLayer, packet_SetApplicationLayer,
      packet_SetErrorLayer;
    match goal with |- context [match ?x with _ => _ end] => destruct x end;
    reflexivity.
Qed.

Lemma SetLayer_data r l p : data (packet_SetLayer r l p) = data p.
Proof.
  destruct r; simpl;
    unfold packet_SetLinkLayer, packet_SetNetworkLayer,
      packet_SetTransportLayer, packet_SetApplicationLayer,
      packet_SetErrorLayer;
    match goal with |- context [match ?x with _ => _ end] => destruct x end;
    reflexivity.
Qed.

Lemma grows_stable (ls : list Layer) :
  BuilderStable (fun p => exists sfx, layers p = ls ++ sfx).
Proof.
  split.
  - intros l p [sfx H]. exists (sfx ++ [l]). simpl. rewrite H.
    symmetry. apply app_assoc.
  - intros r l p [sfx H]. exists sfx. rewrite SetLayer_layers. exact H.
Qed.

Lemma data_stable (d : slice) : BuilderStable (fun p => data p = d).
Proof.
  split.
  - intros l p H. exact H.
  - intros r l p H. rewrite SetLayer_data. exact H.
Qed.

Lemma decodeNextLayer_grows h p :
  exists sfx,
    layers (lpacket (lazyPacket_decodeNextLayer h p)) = layers (lpacket p) ++ sfx.
Proof.
  apply (decodeNextLayer_stable _ h p (grows_stable (layers (lpacket p)))).
  exists []. symmetry. apply app_nil_r.
Qed.

Lemma firstLayer_app hit ls1 ls2 :
  firstLayer hit ls1 = None ->
  firstLayer hit (ls1 ++ ls2) = firstLayer hit ls2.
Proof.
  induction ls1 as [|l ls1 IH]; simpl; [reflexivity|].
  destruct (hit l); [discriminate|exact IH].
Qed.

(** ** What the accessor loops do *)

Lemma decodeWhile_spec h unset fuel :
  forall p p', lazyPacket_decodeWhile h unset fuel p = Some p' ->
  exists n, n <= fuel /\ p' = lazyPacket_steps h n p /\
    (forall m, m < n ->
       unset (lpacket (lazyPacket_steps h m p)) = true /\
       is_Some (next (lazyPacket_steps h m p))) /\
    (unset (lpacket p') = false \/ next p' = None).
Proof.
  induction fuel as [|fuel IH]; intros p p'; simpl;
    destruct (unset (lpacket p)) eqn:Hu;
    destruct (next p) as [d|] eqn:Hn; simpl; intros H;
    try discriminate;
    try (injection H as <-; exists 0;
         split; [lia|]; split; [reflexivity|];
         split; [intros m Hm; lia | auto]).
  destruct (IH _ _ H) as (n & Hle & Hp' & Hbefore & Hstop).
  exists (S n).
  split; [lia|]; split; [exact Hp'|]; split; [|exact Hstop].
  intros [|m] Hm; simpl.
  - rewrite Hu, Hn. eauto.
  - apply Hbefore. lia.
Qed.

Lemma scanNew_spec h hit fuel :
  forall p k res p',
    k = length (layers (lpacket p)) ->
    firstLayer hit (layers (lpacket p)) = None ->
    lazyPacket_scanNew h hit fuel k p = Some (res, p') ->
    exists n, n <= fuel /\ p' = lazyPacket_steps h n p /\
      (forall m, m < n ->
         firstLayer hit (layers (lpacket (lazyPacket_steps h m p))) = None /\
         is_Some (next (lazyPacket_steps h m p))) /\
      res = firstLayer hit (layers (lpacket p')) /\
      (is_Some res \/ next p' = None).
Proof.
  induction fuel as [|fuel IH]; intros p k res p' Hk Hnone; simpl;
    destruct (next p) as [d|] eqn:Hn; intros H; try discriminate;
    try (injection H as <- <-; exists 0;
         split; [lia|]; split; [reflexivity|];
         split; [intros m Hm; lia|]; split; [symmetry; exact Hnone | auto]).
  destruct (decodeNextLayer_grows h p) as [sfx Hg].
  rewrite Hg, Hk, drop_app_length in H.
  destruct (firstLayer hit sfx) as [l|] eqn:Hsfx.
  - injection H as <- <-. exists 1.
    split; [lia|]; split; [reflexivity|]; split; [|split].
    + intros m Hm. assert (m = 0) as -> by lia. simpl. rewrite Hn. eauto.
    + rewrite Hg, firstLayer_app by exact Hnone. auto.
    + eauto.
  - assert (Hnone' : firstLayer hit
              (layers (lpacket (lazyPacket_decodeNextLayer h p))) = None).
    { rewrite Hg, firstLayer_app by exact Hnone. exact Hsfx. }
    rewrite <- Hg in H.
    destruct (IH _ _ _ _ eq_refl Hnone' H)
      as (n & Hle & Hp' & Hbefore & Hres & Hstop).
    exists (S n).
    split; [lia|]; split; [exact Hp'|]; split; [|split; assumption].
    intros [|m] Hm; simpl; [rewrite Hn; eauto | apply Hbefore; lia].
Qed.

(** ** Role pointers *)

Lemma SetLayer_claimed r l p l0 :
  rolePointer r p = Some l0 -> packet_SetLayer r l p = p.
Proof.
  destruct r; simpl;
    unfold packet_SetLinkLayer, packet_SetNetworkLayer,
      packet_SetTransportLayer, packet_SetApplicationLayer,
      packet_SetErrorLayer; intros ->; reflexivity.
Qed.

Lemma SetLayer_unclaimed r l p :
  rolePointer r p = None -> rolePointer r (packet_SetLayer r l p) = l.
Proof.
  destruct r; simpl;
    unfold packet_SetLinkLayer, packet_SetNetworkLayer,
      packet_SetTransportLayer, packet_SetApplicationLayer,
      packet_SetErrorLayer; intros ->; reflexivity.
Qed.

Lemma decodeWhile_satisfied h unset fuel p :
  unset (lpacket p) = false -> lazyPacket_decodeWhile h unset fuel p = Some p.
Proof. intros H. destruct fuel; simpl; rewrite H; reflexivity. Qed.

Lemma decodeWhile_idle h unset fuel p :
  next p = None -> lazyPacket_decodeWhile h unset fuel p = Some p.
Proof.
  intros H. destruct fuel; simpl; rewrite H, andb_false_r; reflexivity.
Qed.

Lemma roleGetter_claimed h r fuel pk l0 :
  rolePointer r (Packet_packet pk) = Some l0 ->
  Packet_call h (roleGetter r) fuel pk = Some (Some l0, pk).
Proof.
  destruct pk as [p|[p nxt]]; simpl; intros H.
  - unfold eagerPacket_call. destruct r; simpl in *; rewrite H; reflexivity.
  - destruct r; simpl in *;
      unfold lazyPacket_LinkLayer, lazyPacket_NetworkLayer,
        lazyPacket_TransportLayer, lazyPacket_ApplicationLayer,
        lazyPacket_ErrorLayer;
      rewrite decodeWhile_satisfied by (simpl; rewrite H; reflexivity);
      simpl; rewrite H; reflexivity.
Qed.

(** C6.  Role pointers are first-write-wins and monotonic.  A setter
    called on an unclaimed role stores its argument; once the role [r]
    holds [l0], every setter for [r] leaves the packet as it is, and no
    builder call, decoder run (eager or lazy), failure recovery, decode
    step or accessor call changes the pointer; the getter of [r] returns
    [l0] without decoding. *)
Theorem role_pointer_first_write_wins (r : Role) (p : packet) (l0 : Layer) :
  (forall q l, rolePointer r q = None ->
               rolePointer r (packet_SetLayer r l q) = l) /\
  (rolePointer r p = Some l0 ->
   (forall l, packet_SetLayer r l p = p) /\
   (forall r' l, rolePointer r (packet_SetLayer r' l p) = Some l0) /\
   (forall l, rolePointer r (packet_AddLayer l p) = Some l0) /\
   (forall v, rolePointer r (packet_recoverDecodeError v p) = Some l0) /\
   (forall h body, rolePointer r (fst (eagerRun h body p)) = Some l0) /\
   (forall h dec,
      rolePointer r (eagerPacket_initialDecode h dec p) = Some l0) /\
   (forall body nxt,
      rolePointer r (lpacket (fst (lazyRun body (mkLazy p nxt)))) = Some l0) /\
   (forall h nxt n,
      rolePointer r (lpacket (lazyPacket_steps h n (mkLazy p nxt))) = Some l0) /\
   (forall h a fuel pk res pk',
      Packet_packet pk = p -> Packet_call h a fuel pk = Some (res, pk') ->
      rolePointer r (Packet_packet pk') = Some l0) /\
   (forall h fuel pk,
      Packet_packet pk = p ->
      Packet_call h (roleGetter r) fuel pk = Some (Some l0, pk))).
Proof.
  split; [intros q l; apply SetLayer_unclaimed|].
  intros Hp. pose proof (rolePointer_stable r l0) as HI.
  pose proof HI as [Hadd Hset].
  repeat split.
  - intros l. eapply SetLayer_claimed; exact Hp.
  - intros r' l. apply Hset, Hp.
  - intros l. apply Hadd, Hp.
  - intros v. apply (recoverDecodeError_stable _ v p HI Hp).
  - intros h body. apply (eagerRun_stable _ h body HI p Hp).
  - intros h dec. unfold eagerPacket_initialDecode.
    pose proof (eagerRun_stable _ h
      (Decoder_Decode dec (data p) (readSlice h (data p))) HI p Hp) as H.
    destruct (eagerRun h _ p) as [p' o]. simpl in H.
    apply (recoverDecodeError_stable _ _ p' HI H).
  - intros body nxt. apply (lazyRun_stable _ body HI (mkLazy p nxt) Hp).
  - intros h nxt n. generalize (mkLazy p nxt), (Hp : rolePointer r (lpacket (mkLazy p nxt)) = Some l0).
    induction n as [|n IH]; intros q Hq; simpl; [exact Hq|].
    apply IH. apply (decodeNextLayer_stable _ h q HI Hq).
  - intros h a fuel pk res pk' <- H.
    eapply (Packet_call_stable _ h a fuel pk res pk' HI); eauto.
  - intros h fuel pk <-. apply roleGetter_claimed. exact Hp.
Qed.

(** ** NextDecoder *)

(** C8, as the code has it.  A nil decoder is refused by both engines
    with [nilDecoderError]; the packet is left as it was and the calling
    decoder goes on with that error.  With no layer added yet, the eager
    engine refuses a decoder with the "no layers added yet" error and
    leaves the packet as it was; the lazy engine makes no such check: it
    records the decoder as pending, changes nothing else and returns nil. *)
Theorem NextDecoder_misuse (h : heap) (p : packet) (nxt : option Decoder)
    (k : option error -> DecodeBody) :
  (forall Decode,
     eagerPacket_NextDecoder Decode None p
     = (p, Returned (Some nilDecoderError))) /\
  eagerRun h (NextDecoder None k) p
  = eagerRun h (k (Some nilDecoderError)) p /\
  lazyPacket_NextDecoder None (mkLazy p nxt)
  = (mkLazy p nxt, Some nilDecoderError) /\
  lazyRun (NextDecoder None k) (mkLazy p nxt)
  = lazyRun (k (Some nilDecoderError)) (mkLazy p nxt) /\
  (last p = None ->
   forall dec : Decoder,
     (forall Decode,
        eagerPacket_NextDecoder Decode (Some dec) p
        = (p, Returned (Some noLayersError))) /\
     eagerRun h (NextDecoder (Some dec) k) p
     = eagerRun h (k (Some noLayersError)) p /\
     lazyPacket_NextDecoder (Some dec) (mkLazy p nxt)
     = (mkLazy p (Some dec), None) /\
     lazyRun (NextDecoder (Some dec) k) (mkLazy p nxt)
     = lazyRun (k None) (mkLazy p (Some dec))).
Proof.
  do 4 (split; [reflexivity|]).
  intros Hlast dec. split; [|split; [|split; reflexivity]].
  - intros Decode. unfold eagerPacket_NextDecoder. rewrite Hlast. reflexivity.
  - apply eagerRun_NextDecoder_noLayer, Hlast.
Qed.

(** C10.  On the lazy engine a [NextDecoder] call with a decoder always
    returns nil and replaces whatever was pending.  A body that calls it
    twice and then returns leaves the second decoder pending, both calls
    having returned nil; the following decode step runs that second
    decoder on the handed payload. *)
Theorem lazy_NextDecoder_overwrites (h : heap) (d1 d2 : Decoder)
    (p : lazyPacket) (k : option error -> DecodeBody) :
  lazyPacket_NextDecoder (Some d2) p = (mkLazy (lpacket p) (Some d2), None) /\
  lazyPacket_NextDecoder (Some d2) (fst (lazyPacket_NextDecoder (Some d1) p))
  = (mkLazy (lpacket p) (Some d2), None) /\
  lazyRun (NextDecoder (Some d1) (fun _ => NextDecoder (Some d2) k)) p
  = lazyRun (k None) (mkLazy (lpacket p) (Some d2)) /\
  (k None = Return None ->
   let q := lazyPacket_afterDecode
              (lazyRun (NextDecoder (Some d1)
                          (fun _ => NextDecoder (Some d2) k)) p) in
   q = mkLazy (lpacket p) (Some d2) /\
   (len (handedPayload (lpacket p)) <> 0 ->
    lazyPacket_decodeNextLayer h q
    = lazyPacket_afterDecode
        (lazyRun (d2 (handedPayload (lpacket p))
                     (readSlice h (handedPayload (lpacket p))))
                 (mkLazy (lpacket p) None)))).
Proof.
  do 3 (split; [reflexivity|]).
  intros Hk q.
  assert (Hq : q = mkLazy (lpacket p) (Some d2)).
  { subst q. simpl. rewrite Hk. reflexivity. }
  split; [exact Hq|].
  intros Hlen. rewrite Hq.
  rewrite (decodeNextLayer_run h _ d2) by (simpl; auto). reflexivity.
Qed.

(** ** The eager engine *)




(** ** The lazy engine *)

Lemma lazy_drained_stays h a fuel pk :
  exists res,
    Packet_call h a fuel (LazyPacket (mkLazy pk None))
    = Some (res, LazyPacket (mkLazy pk None)).
Proof.
  destruct a; simpl;
    unfold lazyPacket_LinkLayer, lazyPacket_NetworkLayer,
      lazyPacket_TransportLayer, lazyPacket_ApplicationLayer,
      lazyPacket_ErrorLayer, lazyPacket_Layer, lazyPacket_LayerClass,
      lazyPacket_lookup;
    try (rewrite decodeWhile_idle by reflexivity; simpl; eauto);
    destruct (firstLayer _ _); simpl; eauto; destruct fuel; simpl; eauto.
Qed.

Lemma lazy_call_spec h a fuel p res pk' :
  Packet_call h a fuel (LazyPacket p) = Some (res, pk') ->
  exists n, n <= fuel /\
    pk' = LazyPacket (lazyPacket_steps h n p) /\
    (forall m, m < n ->
       satisfied a (lpacket (lazyPacket_steps h m p)) = false /\
       is_Some (next (lazyPacket_steps h m p))) /\
    res = eagerPacket_call a (lpacket (lazyPacket_steps h n p)) /\
    (satisfied a (lpacket (lazyPacket_steps h n p)) = true \/
     next (lazyPacket_steps h n p) = None).
Proof.
  assert (Hw : forall (get : packet -> option Layer),
    (p' ← lazyPacket_decodeWhile h (fun q => isNil (get q)) fuel p;
     Some (get (lpacket p'), p')) ≫= (λ '(l, p'), Some (l, LazyPacket p'))
    = Some (res, pk') ->
    exists n, n <= fuel /\
      pk' = LazyPacket (lazyPacket_steps h n p) /\
      (forall m, m < n ->
         negb (isNil (get (lpacket (lazyPacket_steps h m p)))) = false /\
         is_Some (next (lazyPacket_steps h m p))) /\
      res = get (lpacket (lazyPacket_steps h n p)) /\
      (negb (isNil (get (lpacket (lazyPacket_steps h n p)))) = true \/
       next (lazyPacket_steps h n p) = None)).
  { intros get H.
    destruct (lazyPacket_decodeWhile h _ fuel p) as [p1|] eqn:E;
      simpl in H; [|discriminate].
    injection H as <- <-.
    destruct (decodeWhile_spec _ _ _ _ _ E) as (n & Hle & -> & Hb & Hs).
    exists n. split; [exact Hle|]. split; [reflexivity|].
    split; [|split; [reflexivity|]].
    - intros m Hm. destruct (Hb m Hm) as [Hu Hn]. rewrite Hu. auto.
    - destruct Hs as [Hs|Hs]; [left; rewrite Hs; reflexivity | right; exact Hs]. }
  assert (Hl : forall hit,
    lazyPacket_lookup h hit fuel p ≫= (λ '(l, p'), Some (l, LazyPacket p'))
    = Some (res, pk') ->
    exists n, n <= fuel /\
      pk' = LazyPacket (lazyPacket_steps h n p) /\
      (forall m, m < n ->
         negb (isNil (firstLayer hit
                        (layers (lpacket (lazyPacket_steps h m p))))) = false /\
         is_Some (next (lazyPacket_steps h m p))) /\
      res = firstLayer hit (layers (lpacket (lazyPacket_steps h n p))) /\
      (negb (isNil (firstLayer hit
                      (layers (lpacket (lazyPacket_steps h n p))))) = true \/
       next (lazyPacket_steps h n p) = None)).
  { intros hit H. unfold lazyPacket_lookup in H.
    destruct (firstLayer hit (layers (lpacket p))) as [l|] eqn:Hf; simpl in H.
    - injection H as <- <-. exists 0. simpl.
      split; [lia|]. split; [reflexivity|]. split; [intros m Hm; lia|].
      rewrite Hf. auto.
    - destruct (lazyPacket_scanNew h hit fuel _ p) as [[r q]|] eqn:E;
        simpl in H; [|discriminate].
      injection H as <- <-.
      destruct (scanNew_spec _ _ _ _ _ _ _ eq_refl Hf E)
        as (n & Hle & -> & Hb & Hr & Hs).
      exists n. split; [exact Hle|]. split; [reflexivity|].
      split; [|split; [exact Hr|]].
      + intros m Hm. destruct (Hb m Hm) as [Hu Hn]. rewrite Hu. auto.
      + destruct Hs as [[l Hs]|Hs]; [left|right; exact Hs].
        rewrite <- Hr, Hs. reflexivity. }
  destruct a; simpl; first [apply Hw | apply Hl].
Qed.

Lemma lazy_Layers_spec h fuel p ls pk' :
  Packet_Layers h fuel (LazyPacket p) = Some (ls, pk') ->
  exists n, n <= fuel /\
    pk' = LazyPacket (lazyPacket_steps h n p) /\
    (forall m, m < n -> is_Some (next (lazyPacket_steps h m p))) /\
    ls = layers (lpacket (lazyPacket_steps h n p)) /\
    next (lazyPacket_steps h n p) = None.
Proof.
  simpl. unfold lazyPacket_Layers.
  destruct (lazyPacket_decodeWhile h _ fuel p) as [p1|] eqn:E; simpl;
    intros H; [|discriminate].
  injection H as <- <-.
  destruct (decodeWhile_spec _ _ _ _ _ E) as (n & Hle & -> & Hb & Hs).
  exists n. split; [exact Hle|]. split; [reflexivity|].
  split; [intros m Hm; apply (Hb m Hm)|]. split; [reflexivity|].
  destruct Hs as [Hs|Hs]; [discriminate|exact Hs].
Qed.

Lemma Packet_call_enough_at h a n p fuel :
  next (lazyPacket_steps h n p) = None -> n <= fuel ->
  is_Some (Packet_call h a fuel (LazyPacket p)).
Proof.
  intros Hn Hle.
  assert (Hw : forall unset (get : packet -> option Layer),
    is_Some (p' ← lazyPacket_decodeWhile h unset fuel p;
             Some (get (lpacket p'), p'))).
  { intros unset get.
    destruct (decodeWhile_enough h unset n p fuel Hn Hle) as [q ->].
    simpl; eauto. }
  assert (Hl : forall hit, is_Some (lazyPacket_lookup h hit fuel p)).
  { intros hit. unfold lazyPacket_lookup.
    destruct (firstLayer hit _); eauto.
    apply (scanNew_enough h hit n); assumption. }
  destruct a; simpl;
    match goal with |- context [mbind _ ?c] =>
      assert (Hc : is_Some c) by first [apply Hw | apply Hl];
      destruct Hc as [[r q] ->] end; simpl; eauto.
Qed.

(** C5.  A lazy decode step does nothing when no decoder is pending.
    Otherwise it takes the payload of the last layer (the raw buffer when
    there is none) and clears the pending decoder; on an empty payload it
    stops there, leaving the packet as it is with nothing pending, after
    which no accessor changes the packet any more; on a non-empty payload
    it runs the taken decoder on that payload.  A lazy accessor that
    returns has made some number [n] of such steps: before each of them
    its target was unsatisfied and a decoder was pending, and it stopped
    because the target was satisfied or nothing was pending; its result
    is what an eager read of the packet gives at that point.  [Layers]
    steps as long as a decoder is pending.  Every accessor does return:
    some number of steps leaves nothing pending, and once the loop may
    make that many turns every accessor returns and [Layers] returns the
    layers of the packet these steps leave. *)
Theorem lazy_decode_step (h : heap) (p : lazyPacket) :
  (next p = None -> lazyPacket_decodeNextLayer h p = p) /\
  (forall nxt, next p = Some nxt ->
     (len (handedPayload (lpacket p)) = 0 ->
      lazyPacket_decodeNextLayer h p = mkLazy (lpacket p) None /\
      forall h' a fuel, exists res,
        Packet_call h' a fuel (LazyPacket (lazyPacket_decodeNextLayer h p))
        = Some (res, LazyPacket (lazyPacket_decodeNextLayer h p))) /\
     (len (handedPayload (lpacket p)) <> 0 ->
      lazyPacket_decodeNextLayer h p
      = lazyPacket_afterDecode
          (lazyRun (nxt (handedPayload (lpacket p))
                        (readSlice h (handedPayload (lpacket p))))
                   (mkLazy (lpacket p) None)))) /\
  (forall a fuel res pk',
     Packet_call h a fuel (LazyPacket p) = Some (res, pk') ->
     exists n, n <= fuel /\
       pk' = LazyPacket (lazyPacket_steps h n p) /\
       (forall m, m < n ->
          satisfied a (lpacket (lazyPacket_steps h m p)) = false /\
          is_Some (next (lazyPacket_steps h m p))) /\
       res = eagerPacket_call a (lpacket (lazyPacket_steps h n p)) /\
       (satisfied a (lpacket (lazyPacket_steps h n p)) = true \/
        next (lazyPacket_steps h n p) = None)) /\
  (forall fuel ls pk',
     Packet_Layers h fuel (LazyPacket p) = Some (ls, pk') ->
     exists n, n <= fuel /\
       pk' = LazyPacket (lazyPacket_steps h n p) /\
       (forall m, m < n -> is_Some (next (lazyPacket_steps h m p))) /\
       ls = layers (lpacket (lazyPacket_steps h n p)) /\
       next (lazyPacket_steps h n p) = None) /\
  (exists n, next (lazyPacket_steps h n p) = None) /\
  (forall n fuel,
     next (lazyPacket_steps h n p) = None -> n <= fuel ->
     (forall a, exists res pk',
        Packet_call h a fuel (LazyPacket p) = Some (res, pk')) /\
     Packet_Layers h fuel (LazyPacket p)
     = Some (layers (lpacket (lazyPacket_steps h n p)),
             LazyPacket (lazyPacket_steps h n p))).
Proof.
  split; [apply decodeNextLayer_idle|].
  split; [|split; [|split; [|split]]].
  - intros nxt Hn. split.
    + intros H0. rewrite (decodeNextLayer_empty h p nxt Hn H0).
      split; [reflexivity|]. intros h' a fuel. apply lazy_drained_stays.
    + apply decodeNextLayer_run, Hn.
  - intros a fuel res pk'. apply lazy_call_spec.
  - intros fuel ls pk'. apply lazy_Layers_spec.
  - apply lazy_drains.
  - intros n fuel Hn Hle. split.
    + intros a.
      destruct (Packet_call_enough_at h a n p fuel Hn Hle) as [[res pk'] Hc].
      exists res, pk'. exact Hc.
    + simpl. unfold lazyPacket_Layers.
      rewrite (decodeWhile_drain h n p _ fuel eq_refl Hn Hle). reflexivity.
Qed.


Lemma lazy_drained_reads h a fuel pk :
  Packet_call h a fuel (LazyPacket (mkLazy pk None))
  = Some (eagerPacket_call a pk, LazyPacket (mkLazy pk None)).
Proof.
  destruct (lazy_drained_stays h a fuel pk) as [res H].
  destruct (lazy_call_spec _ _ _ _ _ _ H) as (n & _ & _ & _ & Hres & _).
  rewrite steps_idle in Hres by reflexivity. rewrite H, Hres. reflexivity.
Qed.

Lemma steps_empty_payload h n :
  forall p, len (handedPayload (lpacket p)) = 0 ->
    lpacket (lazyPacket_steps h n p) = lpacket p.
Proof.
  induction n as [|n IH]; intros p H0; simpl; [reflexivity|].
  destruct (next p) as [nxt|] eqn:Hn.
  - rewrite (decodeNextLayer_empty h p nxt Hn H0).
    rewrite steps_idle by reflexivity. reflexivity.
  - rewrite decodeNextLayer_idle by exact Hn. apply IH, H0.
Qed.

(** With an empty payload to hand on, a lazy packet no longer changes. *)
Lemma lazy_empty_payload_terminal h a fuel p res pk' :
  len (handedPayload (lpacket p)) = 0 ->
  Packet_call h a fuel (LazyPacket p) = Some (res, pk') ->
  Packet_packet pk' = lpacket p /\ res = eagerPacket_call a (lpacket p).
Proof.
  intros H0 H.
  destruct (lazy_call_spec _ _ _ _ _ _ H) as (n & _ & -> & _ & -> & _).
  simpl. rewrite steps_empty_payload by exact H0. auto.
Qed.

Lemma lazy_empty_payload_Layers h fuel p ls pk' :
  len (handedPayload (lpacket p)) = 0 ->
  Packet_Layers h fuel (LazyPacket p) = Some (ls, pk') ->
  Packet_packet pk' = lpacket p /\ ls = layers (lpacket p).
Proof.
  intros H0 H.
  destruct (lazy_Layers_spec _ _ _ _ _ H) as (n & _ & -> & _ & -> & _).
  simpl. rewrite steps_empty_payload by exact H0. auto.
Qed.

(** ** Failure recovery *)


Lemma recoverDecodeError_fails r p :
  let fail := FailureLayer (mkDecodeFailure (fmt_Errorf_v r) (handedPayload p)) in
  layers (packet_recoverDecodeError (Some r) p) = layers p ++ [fail] /\
  last (packet_recoverDecodeError (Some r) p) = Some fail.
Proof.
  unfold packet_recoverDecodeError, handedPayload. simpl.
  destruct (last p); auto.
Qed.


(** C2, as the code has it.  On a non-empty input, for a first decoder
    whose bodies are chained (each decoder queues at most one next
    decoder, as its last call, once the packet has a layer, and returns
    what that call returned), [NewPacket] with [Lazy] unset and with
    [Lazy] set, all else equal, agree: once [Layers] has drained the lazy
    packet, its layers, role pointers, error layer and every other field
    are those of the eager packet, and every later accessor call on it
    returns what the eager packet returns. *)
Theorem eager_lazy_agree_on_chains (h : heap) (d : slice) (dec : Decoder)
    (nc : bool) :
  len d <> 0 ->
  (forall s bs, Chained false (dec s bs)) ->
  exists h' pe pl,
    NewPacket h d (Some dec) (mkOptions false nc) = (h', EagerPacket pe) /\
    NewPacket h d (Some dec) (mkOptions true nc) = (h', LazyPacket pl) /\
    (exists n, forall fuel, n <= fuel ->
       Packet_Layers h' fuel (LazyPacket pl)
       = Some (layers pe, LazyPacket (mkLazy pe None))) /\
    (forall a fuel,
       Packet_call h' a fuel (LazyPacket (mkLazy pe None))
       = Some (eagerPacket_call a pe, LazyPacket (mkLazy pe None))).
Proof.
  intros Hlen Hdec. unfold NewPacket. simpl.
  set (hd := if negb nc then _ else _).
  assert (Hd : len (snd hd) = len d).
  { subst hd. destruct nc; reflexivity. }
  destruct hd as [h' d']. simpl in Hd.
  exists h', (eagerPacket_initialDecode h' (Some dec) (newPacketStruct d')),
         (mkLazy (newPacketStruct d') (Some dec)).
  split; [reflexivity|]. split; [reflexivity|].
  split; [|intros; apply lazy_drained_reads].
  destruct (chained_agree h' false (dec d' (readSlice h' d')) (Hdec _ _)
              (newPacketStruct d') ltac:(discriminate)) as [n Hn].
  exists (S n). intros fuel Hle. simpl. unfold lazyPacket_Layers.
  rewrite (decodeWhile_drain h' (S n) _
             (mkLazy (eagerPacket_initialDecode h' (Some dec)
                        (newPacketStruct d')) None)); [reflexivity| |reflexivity|exact Hle].
  simpl.
  rewrite (decodeNextLayer_run h' _ dec);
    [|reflexivity|unfold handedPayload; simpl; congruence].
  simpl. unfold handedPayload. simpl. rewrite Hn.
  unfold eagerPacket_initialDecode, eagerPacket_afterDecode. simpl.
  destruct (eagerRun h' _ _); reflexivity.
Qed.

(** ** After a failure *)

(** C3, as the code has it.  An eager packet never changes once built.
    When a lazy decode step fails, the failure layer becomes the last
    layer, and the pending decoder is left as the failed body left it:
    nil unless that body had queued a decoder.  Provided a failure layer
    has an empty payload, the layers, the role pointers and every other
    field of the packet stay as they are through every later accessor
    call, and one further decode step leaves nothing pending. *)
Theorem failure_is_terminal (h : heap) :
  (forall p h' a fuel,
     Packet_call h' a fuel (EagerPacket p)
     = Some (eagerPacket_call a p, EagerPacket p)) /\
  (forall p nxt p1 o r,
     next p = Some nxt -> len (handedPayload (lpacket p)) <> 0 ->
     lazyRun (nxt (handedPayload (lpacket p))
                  (readSlice h (handedPayload (lpacket p))))
             (mkLazy (lpacket p) None) = (p1, o) ->
     recovered o = Some r ->
     let q := lazyPacket_decodeNextLayer h p in
     next q = next p1 /\
     (exists f, last (lpacket q) = Some (FailureLayer f) /\
                layers (lpacket q) = layers (lpacket p1) ++ [FailureLayer f]) /\
     ((forall f, len (DecodeFailure_LayerPayload f) = 0) ->
      (forall h' a fuel res pk',
         Packet_call h' a fuel (LazyPacket q) = Some (res, pk') ->
         Packet_packet pk' = lpacket q /\
         res = eagerPacket_call a (lpacket q)) /\
      (forall h' fuel ls pk',
         Packet_Layers h' fuel (LazyPacket q) = Some (ls, pk') ->
         Packet_packet pk' = lpacket q /\ ls = layers (lpacket q)) /\
      (forall h', lazyPacket_decodeNextLayer h' q = mkLazy (lpacket q) None))).
Proof.
  split; [reflexivity|].
  intros p nxt p1 o r Hn Hlen E Hr q.
  assert (Hq : q = mkLazy (packet_recoverDecodeError (Some r) (lpacket p1))
                          (next p1)).
  { subst q. rewrite (decodeNextLayer_run h p nxt Hn Hlen), E.
    unfold lazyPacket_afterDecode. simpl. rewrite Hr. reflexivity. }
  destruct (recoverDecodeError_fails r (lpacket p1)) as [Hl Hlast].
  split; [rewrite Hq; reflexivity|]. split.
  - eexists. rewrite Hq. simpl. split; [exact Hlast | exact Hl].
  - intros Hempty.
    assert (H0 : len (handedPayload (lpacket q)) = 0).
    { rewrite Hq. unfold handedPayload. cbn [lpacket]. rewrite Hlast.
      simpl. apply Hempty. }
    split; [|split].
    + intros h' a fuel res pk'. apply lazy_empty_payload_terminal, H0.
    + intros h' fuel ls pk'. apply lazy_empty_payload_Layers, H0.
    + intros h'. destruct (next q) as [d'|] eqn:Hnq.
      * apply (decodeNextLayer_empty h' q d' Hnq H0).
      * rewrite decodeNextLayer_idle by exact Hnq.
        destruct q; simpl in *; congruence.
Qed.

(** ** Buffer ownership *)

Lemma backing_alter_ne f b b' (h : heap) :
  b <> b' -> backing (alter f b h) b' = backing h b'.
Proof. intros H. unfold backing. rewrite list_lookup_alter_ne; auto. Qed.

Lemma backing_alter f b (h : heap) :
  b < length h -> backing (alter f b h) b = f (backing h b).
Proof.
  intros H. unfold backing. rewrite list_lookup_alter_eq.
  destruct (lookup_lt_is_Some_2 h b H) as [x ->]. reflexivity.
Qed.

Lemma backing_app_old (h : heap) x b :
  b < length h -> backing (h ++ [x]) b = backing h b.
Proof. intros H. unfold backing. rewrite lookup_app_l; auto. Qed.

Lemma backing_app_new (h : heap) x : backing (h ++ [x]) (length h) = x.
Proof. unfold backing. rewrite list_lookup_middle; auto. Qed.

Lemma readSlice_same_backing h h' s :
  backing h' (base s) = backing h (base s) -> readSlice h' s = readSlice h s.
Proof. unfold readSlice. intros ->. reflexivity. Qed.

Lemma readSlice_length h s : validSlice h s -> length (readSlice h s) = len s.
Proof.
  intros [H _]. unfold readSlice. rewrite length_take, length_drop. lia.
Qed.

Lemma length_alter_heap f b (h : heap) : length (alter f b h) = length h.
Proof. apply length_alter. Qed.

Lemma pokes_other h s ws b :
  b <> base s -> backing (pokes h s ws) b = backing h b.
Proof.
  revert h. induction ws as [|[i v] ws IH]; intros h Hb; simpl; [reflexivity|].
  rewrite IH by exact Hb. unfold pokeSlice. apply backing_alter_ne. auto.
Qed.

(** The copy [NewPacket] makes: a fresh array holding the bytes of [d]. *)
Lemma make_copy h d :
  validSlice h d ->
  let h1 := fst (make h (len d)) in
  let dc := snd (make h (len d)) in
  let h2 := copy h1 dc d in
  base dc = length h /\ base dc <> base d /\
  readSlice h2 dc = readSlice h d /\
  (forall b, b < length h -> backing h2 b = backing h b).
Proof.
  intros Hv. pose proof Hv as [Hlen Hb]. simpl.
  split; [reflexivity|]. split; [lia|].
  assert (Hrd : readSlice (h ++ [replicate (len d) Byte.x00]) d
                = readSlice h d).
  { apply readSlice_same_backing, backing_app_old, Hb. }
  unfold copy. simpl. rewrite Hrd, Nat.min_id.
  rewrite take_ge by (rewrite readSlice_length by exact Hv; lia).
  split.
  - unfold readSlice at 1. simpl.
    rewrite backing_alter by (rewrite length_app; simpl; lia).
    rewrite backing_app_new. simpl.
    rewrite (readSlice_length h d Hv), drop_replicate, Nat.sub_diag. simpl.
    rewrite app_nil_r.
    apply take_ge. rewrite readSlice_length by exact Hv. lia.
  - intros b Hlt. rewrite backing_alter_ne by lia.
    apply backing_app_old, Hlt.
Qed.

Lemma NewPacket_buffer h d dec opts :
  fst (NewPacket h d dec opts)
  = (if NoCopy opts then h
     else copy (fst (make h (len d))) (snd (make h (len d))) d) /\
  Packet_Data (snd (NewPacket h d dec opts))
  = (if NoCopy opts then d else snd (make h (len d))).
Proof.
  unfold NewPacket. destruct opts as [lz nc]. simpl.
  set (hd := if negb nc then _ else _).
  assert (Hhd : hd = (if nc then h
                      else copy (h ++ [replicate (len d) Byte.x00])
                                (mkSlice (length h) 0 (len d)) d,
                      if nc then d else mkSlice (length h) 0 (len d))).
  { subst hd. destruct nc; reflexivity. }
  rewrite Hhd. clear Hhd hd.
  set (h' := if nc then h else _). set (d' := if nc then d else _).
  destruct lz; simpl; [auto|]. split; [reflexivity|].
  unfold Packet_Data, packet_Data, eagerPacket_initialDecode. simpl.
  pose proof (eagerRun_stable _ h'
    (Decoder_Decode dec d' (readSlice h' d')) (data_stable d')
    (newPacketStruct d') eq_refl) as Hd.
  destruct (eagerRun h' _ (newPacketStruct d')) as [p' o]. simpl in Hd.
  apply recoverDecodeError_stable; [apply data_stable | exact Hd].
Qed.

Lemma readSlice_poked h d i v s j :
  validSlice h d -> i < len d -> base s = base d ->
  off s + j = off d + i -> j < len s ->
  readSlice (pokeSlice h d i v) s !! j = Some v.
Proof.
  intros [Hlen Hb] Hi Hbase Hoff Hj. unfold readSlice, pokeSlice.
  rewrite Hbase, backing_alter by exact Hb.
  rewrite lookup_take_lt by exact Hj. rewrite lookup_drop, Hoff.
  apply list_lookup_insert_eq. lia.
Qed.

(** *** Decoding reads the packet's own array only *)

Lemma readSlice_agree h1 h2 b s :
  backing h1 b = backing h2 b -> inArray b s ->
  readSlice h1 s = readSlice h2 s.
Proof.
  intros Hb [H0|Hs]; unfold readSlice.
  - rewrite H0. reflexivity.
  - rewrite Hs, Hb. reflexivity.
Qed.

Lemma Owned_AddLayer b l p :
  inArray b (Layer_LayerPayload l) -> Owned b p -> Owned b (packet_AddLayer l p).
Proof.
  intros Hl (Hd & Hls & Hlast). split; [exact Hd|]. split.
  - simpl. apply Forall_app. split; [exact Hls|]. constructor; [exact Hl|constructor].
  - simpl. intros l' E. injection E as <-. exact Hl.
Qed.

Lemma Owned_SetLayer b r l p : Owned b p -> Owned b (packet_SetLayer r l p).
Proof.
  intros (Hd & Hls & Hlast). unfold Owned.
  rewrite SetLayer_data, SetLayer_layers, SetLayer_last. auto.
Qed.

Lemma Owned_handed b p : Owned b p -> inArray b (handedPayload p).
Proof.
  intros (Hd & _ & Hlast). unfold handedPayload.
  destruct (last p) as [l|]; [apply Hlast; reflexivity | exact Hd].
Qed.

Lemma Owned_recover b r p :
  FailurePayloadWithin -> Owned b p -> Owned b (packet_recoverDecodeError r p).
Proof.
  intros Hf Hp. destruct r as [r|]; [|exact Hp].
  unfold packet_recoverDecodeError. apply Owned_AddLayer; [|exact Hp].
  simpl. apply Hf. simpl. apply (Owned_handed b p Hp).
Qed.

Lemma eagerRun_agree h1 h2 b body :
  backing h1 b = backing h2 b -> Slicing b body ->
  forall p, Owned b p ->
    eagerRun h1 body p = eagerRun h2 body p /\
    Owned b (fst (eagerRun h1 body p)).
Proof.
  intros Hb HS.
  induction HS as [e|v|l k Hl Hk IH|r l k Hk IH|k Hk IH|dec k Hdec IHdec Hk IH];
    intros p Hp.
  - split; [reflexivity | exact Hp].
  - split; [reflexivity | exact Hp].
  - simpl. apply IH, Owned_AddLayer; assumption.
  - simpl. apply IH, Owned_SetLayer; assumption.
  - rewrite !eagerRun_NextDecoder_nil. apply IH, Hp.
  - destruct (last p) as [l|] eqn:Hlast.
    + destruct (Nat.eq_dec (len (Layer_LayerPayload l)) 0) as [H0|H0].
      * rewrite !(eagerRun_NextDecoder_empty _ _ _ _ _ Hlast H0). apply IH, Hp.
      * rewrite !(eagerRun_NextDecoder_call _ _ _ _ _ Hlast H0).
        assert (Hin : inArray b (Layer_LayerPayload l)).
        { destruct Hp as (_ & _ & H). apply H, Hlast. }
        rewrite <- (readSlice_agree h1 h2 b _ Hb Hin).
        destruct (IHdec _ (readSlice h1 (Layer_LayerPayload l)) Hin p Hp)
          as [E O].
        rewrite <- E.
        destruct (eagerRun h1 (dec _ _) p) as [p' [e|v]]; simpl in O.
        -- apply IH, O.
        -- split; [reflexivity | exact O].
    + rewrite !(eagerRun_NextDecoder_noLayer _ _ _ _ Hlast). apply IH, Hp.
Qed.

Lemma lazyRun_owned b body :
  Slicing b body ->
  forall p, Owned b (lpacket p) -> SlicingDecoder b (next p) ->
    Owned b (lpacket (fst (lazyRun body p))) /\
    SlicingDecoder b (next (fst (lazyRun body p))).
Proof.
  intros HS.
  induction HS as [e|v|l k Hl Hk IH|r l k Hk IH|k Hk IH|dec k Hdec IHdec Hk IH];
    intros p Hp Hn; simpl.
  - auto.
  - auto.
  - apply IH; simpl; [apply Owned_AddLayer; assumption | exact Hn].
  - apply IH; simpl; [apply Owned_SetLayer; assumption | exact Hn].
  - apply IH; assumption.
  - apply IH; simpl; [exact Hp | exact Hdec].
Qed.

Lemma decodeNextLayer_agree h1 h2 b p :
  FailurePayloadWithin -> backing h1 b = backing h2 b ->
  Owned b (lpacket p) -> SlicingDecoder b (next p) ->
  lazyPacket_decodeNextLayer h1 p = lazyPacket_decodeNextLayer h2 p /\
  Owned b (lpacket (lazyPacket_decodeNextLayer h1 p)) /\
  SlicingDecoder b (next (lazyPacket_decodeNextLayer h1 p)).
Proof.
  intros Hf Hb Hp Hn.
  destruct (next p) as [nxt|] eqn:Hnext.
  - destruct (Nat.eq_dec (len (handedPayload (lpacket p))) 0) as [H0|H0].
    + rewrite !(decodeNextLayer_empty _ p nxt Hnext H0). simpl. auto.
    + rewrite !(decodeNextLayer_run _ p nxt Hnext H0).
      pose proof (Owned_handed b _ Hp) as Hin.
      rewrite <- (readSlice_agree h1 h2 b _ Hb Hin).
      split; [reflexivity|].
      destruct (lazyRun_owned b _ (Hn _ (readSlice h1 (handedPayload (lpacket p))) Hin)
                  (mkLazy (lpacket p) None) Hp I) as [O S].
      unfold lazyPacket_afterDecode. simpl.
      split; [apply Owned_recover; assumption | exact S].
  - rewrite !decodeNextLayer_idle by exact Hnext. rewrite Hnext. auto.
Qed.

Lemma steps_agree h1 h2 b n :
  FailurePayloadWithin -> backing h1 b = backing h2 b ->
  forall p, Owned b (lpacket p) -> SlicingDecoder b (next p) ->
    lazyPacket_steps h1 n p = lazyPacket_steps h2 n p /\
    Owned b (lpacket (lazyPacket_steps h1 n p)) /\
    SlicingDecoder b (next (lazyPacket_steps h1 n p)).
Proof.
  intros Hf Hb. induction n as [|n IH]; intros p Hp Hn; simpl; [auto|].
  destruct (decodeNextLayer_agree h1 h2 b p Hf Hb Hp Hn) as (E & O & S).
  rewrite <- E. apply IH; assumption.
Qed.

Lemma decodeWhile_agree h1 h2 b unset fuel :
  FailurePayloadWithin -> backing h1 b = backing h2 b ->
  forall p, Owned b (lpacket p) -> SlicingDecoder b (next p) ->
    lazyPacket_decodeWhile h1 unset fuel p
    = lazyPacket_decodeWhile h2 unset fuel p.
Proof.
  intros Hf Hb. induction fuel as [|fuel IH]; intros p Hp Hn; simpl;
    [reflexivity|].
  destruct (unset (lpacket p) && negb (isNil (next p))); [|reflexivity].
  destruct (decodeNextLayer_agree h1 h2 b p Hf Hb Hp Hn) as (E & O & S).
  rewrite <- E. apply IH; assumption.
Qed.

Lemma scanNew_agree h1 h2 b hit fuel :
  FailurePayloadWithin -> backing h1 b = backing h2 b ->
  forall k p, Owned b (lpacket p) -> SlicingDecoder b (next p) ->
    lazyPacket_scanNew h1 hit fuel k p = lazyPacket_scanNew h2 hit fuel k p.
Proof.
  intros Hf Hb. induction fuel as [|fuel IH]; intros k p Hp Hn; simpl;
    [reflexivity|].
  destruct (next p) eqn:Hnext; [|reflexivity].
  rewrite <- Hnext in Hn.
  destruct (decodeNextLayer_agree h1 h2 b p Hf Hb Hp Hn) as (E & O & S).
  rewrite <- E. destruct (firstLayer hit _); [reflexivity|].
  apply IH; assumption.
Qed.

Lemma Packet_agree h1 h2 b pk :
  FailurePayloadWithin -> backing h1 b = backing h2 b -> OwnedPacket b pk ->
  (forall a fuel, Packet_call h1 a fuel pk = Packet_call h2 a fuel pk) /\
  (forall fuel, Packet_Layers h1 fuel pk = Packet_Layers h2 fuel pk) /\
  (forall a fuel res pk',
     Packet_call h1 a fuel pk = Some (res, pk') -> OwnedPacket b pk') /\
  (forall fuel ls pk',
     Packet_Layers h1 fuel pk = Some (ls, pk') -> OwnedPacket b pk').
Proof.
  intros Hf Hb [Hp Hn]. destruct pk as [p|p]; simpl in Hp.
  - split; [reflexivity|]. split; [reflexivity|]. split.
    + intros a fuel res pk' H. injection H as <- <-. split; [exact Hp|exact I].
    + intros fuel ls pk' H. injection H as <- <-. split; [exact Hp|exact I].
  - split; [|split; [|split]].
    + intros a fuel. destruct a; simpl;
        unfold lazyPacket_LinkLayer, lazyPacket_NetworkLayer,
          lazyPacket_TransportLayer, lazyPacket_ApplicationLayer,
          lazyPacket_ErrorLayer, lazyPacket_Layer, lazyPacket_LayerClass,
          lazyPacket_lookup;
        try (rewrite (decodeWhile_agree h1 h2 b _ fuel Hf Hb p Hp Hn);
             reflexivity);
        destruct (firstLayer _ _); try reflexivity;
        rewrite (scanNew_agree h1 h2 b _ fuel Hf Hb _ p Hp Hn); reflexivity.
    + intros fuel. simpl. unfold lazyPacket_Layers.
      rewrite (decodeWhile_agree h1 h2 b _ fuel Hf Hb p Hp Hn). reflexivity.
    + intros a fuel res pk' H.
      destruct (lazy_call_spec _ _ _ _ _ _ H) as (n & _ & -> & _).
      destruct (steps_agree h1 h2 b n Hf Hb p Hp Hn) as (_ & O & S).
      split; assumption.
    + intros fuel ls pk' H.
      destruct (lazy_Layers_spec _ _ _ _ _ H) as (n & _ & -> & _).
      destruct (steps_agree h1 h2 b n Hf Hb p Hp Hn) as (_ & O & S).
      split; assumption.
Qed.

Lemma initialDecode_data h dec p :
  data (eagerPacket_initialDecode h dec p) = data p.
Proof.
  unfold eagerPacket_initialDecode.
  pose proof (eagerRun_stable _ h
    (Decoder_Decode dec (data p) (readSlice h (data p))) (data_stable (data p))
    p eq_refl) as Hs.
  destruct (eagerRun h _ p) as [p' o]. simpl in Hs.
  apply recoverDecodeError_stable; [apply data_stable|exact Hs].
Qed.

Lemma initialDecode_owned h dec p :
  FailurePayloadWithin -> SlicingDecoder (base (data p)) dec ->
  Owned (base (data p)) p ->
  Owned (base (data p)) (eagerPacket_initialDecode h dec p).
Proof.
  intros Hf Hdec Hp. unfold eagerPacket_initialDecode.
  assert (HS : Slicing (base (data p))
                 (Decoder_Decode dec (data p) (readSlice h (data p)))).
  { destruct dec as [f|]; simpl; [|constructor].
    apply Hdec. right. reflexivity. }
  destruct (eagerRun_agree h h _ _ eq_refl HS _ Hp) as [_ O].
  destruct (eagerRun h _ p) as [p' o]. simpl in O.
  apply Owned_recover; assumption.
Qed.

Lemma NewPacket_owned h d dec opts :
  let pk := snd (NewPacket h d dec opts) in
  SlicingDecoder (base (Packet_Data pk)) dec ->
  FailurePayloadWithin ->
  OwnedPacket (base (Packet_Data pk)) pk.
Proof.
  unfold NewPacket. destruct opts as [lz nc]. simpl.
  set (hd := if negb nc then _ else _). destruct hd as [h' d'].
  assert (Hp0 : Owned (base d') (newPacketStruct d')).
  { split; [right; reflexivity|]. split; [constructor|discriminate]. }
  destruct lz; simpl; unfold Packet_Data, packet_Data; simpl.
  - intros Hdec Hf. split; [exact Hp0 | exact Hdec].
  - rewrite initialDecode_data. simpl. intros Hdec Hf.
    split; [|exact I]. simpl.
    apply (initialDecode_owned h' dec (newPacketStruct d') Hf Hdec Hp0).
Qed.

Lemma Packet_Layers_result h fuel pk ls pk' :
  Packet_Layers h fuel pk = Some (ls, pk') -> ls = layers (Packet_packet pk').
Proof.
  destruct pk as [p|p].
  - simpl. intros H. injection H as <- <-. reflexivity.
  - intros H. destruct (lazy_Layers_spec _ _ _ _ _ H) as (n & _ & -> & _ & -> & _).
    reflexivity.
Qed.

(** C7.  With [NoCopy] unset the packet's buffer is a fresh array holding
    the bytes of the input: whatever is later written through the
    caller's slice, [Data()] and every slice of the packet's array read
    as before; for decoders that cut their layers out of the slice they
    are handed, every accessor then returns what it would have returned
    without the writes, and every layer payload reads as before.  With
    [NoCopy] set the packet's buffer is the caller's slice itself: a byte
    written through the caller's slice is read back through [Data()] and
    through every slice of that array that covers it. *)
Theorem buffer_ownership (h : heap) (d : slice) (dec : option Decoder)
    (lz : bool) :
  validSlice h d ->
  (forall h' pk,
     NewPacket h d dec (mkOptions lz false) = (h', pk) ->
     base (Packet_Data pk) <> base d /\
     readSlice h' (Packet_Data pk) = readSlice h d /\
     (forall ws,
        readSlice (pokes h' d ws) (Packet_Data pk) = readSlice h d /\
        forall s, base s = base (Packet_Data pk) ->
                  readSlice (pokes h' d ws) s = readSlice h' s) /\
     (FailurePayloadWithin ->
      SlicingDecoder (base (Packet_Data pk)) dec ->
      forall ws,
        (forall a fuel,
           Packet_call (pokes h' d ws) a fuel pk = Packet_call h' a fuel pk) /\
        (forall fuel,
           Packet_Layers (pokes h' d ws) fuel pk = Packet_Layers h' fuel pk) /\
        (forall fuel ls pk',
           Packet_Layers h' fuel pk = Some (ls, pk') ->
           Forall (fun l => readSlice (pokes h' d ws) (Layer_LayerPayload l)
                            = readSlice h' (Layer_LayerPayload l)) ls))) /\
  (forall h' pk,
     NewPacket h d dec (mkOptions lz true) = (h', pk) ->
     h' = h /\ Packet_Data pk = d /\
     forall i v, i < len d ->
       readSlice (pokeSlice h' d i v) (Packet_Data pk) !! i = Some v /\
       forall s j, base s = base d -> off s + j = off d + i -> j < len s ->
                   readSlice (pokeSlice h' d i v) s !! j = Some v).
Proof.
  intros Hv. split; intros h' pk HN;
    match type of HN with NewPacket _ _ _ ?o = _ =>
      destruct (NewPacket_buffer h d dec o) as [Hh Hd];
      pose proof (NewPacket_owned h d dec o) as Ho end;
    rewrite HN in Hh, Hd, Ho; simpl in Hh, Hd, Ho.
  - destruct (make_copy h d Hv) as (Hbase & Hne & Hrd & Hold).
    simpl in Hbase, Hne, Hrd, Hold. rewrite <- Hh in Hrd. rewrite Hd in *.
    simpl in Ho.
    assert (Hback : forall ws,
              backing (pokes h' d ws) (length h) = backing h' (length h)).
    { intros ws. apply pokes_other. destruct Hv. lia. }
    split; [exact Hne|]. split; [exact Hrd|]. split.
    + intros ws.
      assert (Hs : forall s, base s = length h ->
                readSlice (pokes h' d ws) s = readSlice h' s).
      { intros s Hs. apply readSlice_same_backing. rewrite Hs. apply Hback. }
      split; [rewrite Hs by reflexivity; exact Hrd | exact Hs].
    + intros Hf Hdec ws. specialize (Ho Hdec Hf).
      destruct (Packet_agree (pokes h' d ws) h' (length h) pk Hf (Hback ws) Ho)
        as (Hcall & Hlayers & _).
      split; [exact Hcall|]. split; [exact Hlayers|].
      intros fuel ls pk' HL.
      destruct (Packet_agree h' h' (length h) pk Hf eq_refl Ho)
        as (_ & _ & _ & Hown).
      destruct (Hown fuel ls pk' HL) as [(_ & Hall & _) _].
      rewrite (Packet_Layers_result _ _ _ _ _ HL).
      eapply Forall_impl; [exact Hall|]. intros l Hl. simpl.
      apply (readSlice_agree _ _ (length h)); [apply Hback | exact Hl].
  - subst h'. rewrite Hd. split; [reflexivity|]. split; [reflexivity|].
    intros i v Hi. split.
    + apply readSlice_poked; auto.
    + intros s j. apply readSlice_poked; auto.
Qed.

(** ** PacketSource *)

Lemma setCaptureInfo_capInfo ci pk :
  capInfo (Packet_packet (Packet_setCaptureInfo ci pk)) = ci.
Proof. destruct pk; reflexivity. Qed.

Lemma NextPacket_error h p e :
  reads (source p) (pos (source p)) = ReadErr e ->
  PacketSource_NextPacket h p
  = (h, mkPacketSource (mkSource (reads (source p)) (S (pos (source p))))
                       (decoder p) (options p),
     (None, Some e)).
Proof. intros H. unfold PacketSource_NextPacket. simpl. rewrite H. reflexivity. Qed.

Lemma NextPacket_ok h p d ci :
  reads (source p) (pos (source p)) = ReadOk d ci ->
  exists h' pk,
    PacketSource_NextPacket h p
    = (h', mkPacketSource (mkSource (reads (source p)) (S (pos (source p))))
                          (decoder p) (options p),
       (Some pk, None)) /\
    capInfo (Packet_packet pk) = ci.
Proof.
  intros H. unfold PacketSource_NextPacket. simpl. rewrite H.
  destruct (NewPacket h d (decoder p) (options p)) as [h' pk].
  exists h', (Packet_setCaptureInfo ci pk).
  split; [reflexivity | apply setCaptureInfo_capInfo].
Qed.

Lemma yields_then_EOF n :
  forall h p ds cis,
    YieldsThenEOF (source p) n ds cis ->
    exists pks,
      length pks = n /\
      (forall k pk, pks !! k = Some pk -> capInfo (Packet_packet pk) = cis k) /\
      PacketSource_NextPackets (S n) h p
      = map (fun pk => (Some pk, None)) pks ++ [(None, Some io_EOF)] /\
      (forall fuel, n < fuel ->
         PacketSource_packetsToChannel fuel h p
         = Some (map (fun pk => Send (Some pk)) pks ++ [Close])).
Proof.
  induction n as [|n IH]; intros h p ds cis [Hok Heof].
  - rewrite Nat.add_0_r in Heof. exists []. split; [reflexivity|].
    split; [intros k pk Hk; discriminate|]. split.
    + simpl. rewrite (NextPacket_error h p _ Heof). reflexivity.
    + intros [|fuel] Hlt; [lia|]. simpl.
      rewrite (NextPacket_error h p _ Heof). reflexivity.
  - pose proof (Hok 0 ltac:(lia)) as H0. rewrite Nat.add_0_r in H0.
    destruct (NextPacket_ok h p _ _ H0) as (h' & pk & HN & Hci).
    set (p' := mkPacketSource _ _ _) in HN.
    destruct (IH h' p' (fun k => ds (S k)) (fun k => cis (S k)))
      as (pks & Hlen & Hcis & Hcalls & Hchan).
    { split; simpl.
      - intros k Hk. rewrite <- (Hok (S k)) by lia. f_equal. lia.
      - rewrite <- Heof. f_equal. lia. }
    exists (pk :: pks). split; [simpl; lia|]. split; [|split].
    + intros [|k] pk' Hk; simpl in Hk.
      * injection Hk as <-. exact Hci.
      * apply (Hcis k pk' Hk).
    + change (PacketSource_NextPackets (S (S n)) h p)
        with (let '(h', p', r) := PacketSource_NextPacket h p in
              r :: PacketSource_NextPackets (S n) h' p').
      rewrite HN, Hcalls. reflexivity.
    + intros [|fuel] Hlt; [lia|].
      change (PacketSource_packetsToChannel (S fuel) h p)
        with (let '(h', p', (pk, e)) := PacketSource_NextPacket h p in
              match e with
              | Some e' =>
                  if is_EOF e' then Some [Close]
                  else PacketSource_packetsToChannel fuel h' p'
              | None =>
                  evs ← PacketSource_packetsToChannel fuel h' p';
                  Some (Send pk :: evs)
              end).
      rewrite HN, Hchan by lia. reflexivity.
Qed.

(** C9.  For a source that gives [n] successful reads and then
    [io.EOF]: [n] calls of [NextPacket] each return a packet, carrying
    the metadata of its read, with a nil error; the next call returns a
    nil packet and [io.EOF] itself; the goroutine of [Packets] sends
    exactly those [n] packets and then closes the channel.  Any error of
    the source is returned by [NextPacket] as it is, with a nil packet;
    on an error other than [io.EOF] the loop of [Packets] sends nothing
    and reads on. *)
Theorem packet_source_streams (h : heap) (p : PacketSource) :
  (forall n ds cis,
     YieldsThenEOF (source p) n ds cis ->
     exists pks,
       length pks = n /\
       (forall k pk, pks !! k = Some pk -> capInfo (Packet_packet pk) = cis k) /\
       PacketSource_NextPackets (S n) h p
       = map (fun pk => (Some pk, None)) pks ++ [(None, Some io_EOF)] /\
       (forall fuel, n < fuel ->
          PacketSource_packetsToChannel fuel h p
          = Some (map (fun pk => Send (Some pk)) pks ++ [Close]))) /\
  (forall e,
     reads (source p) (pos (source p)) = ReadErr e ->
     let p' := mkPacketSource
                 (mkSource (reads (source p)) (S (pos (source p))))
                 (decoder p) (options p) in
     PacketSource_NextPacket h p = (h, p', (None, Some e)) /\
     (is_EOF e = false ->
      forall fuel,
        PacketSource_packetsToChannel (S fuel) h p
        = PacketSource_packetsToChannel fuel h p')).
Proof.
  split.
  - intros n ds cis. apply yields_then_EOF.
  - intros e He p'. split; [apply NextPacket_error, He|].
    intros Hne fuel. simpl.
    rewrite (NextPacket_error h p e He), Hne. reflexivity.
Qed.

(** * Further properties of the engine *)

(** ** What every decode step keeps *)

Lemma steps_stable I h n :
  BuilderStable I ->
  forall p, I (lpacket p) -> I (lpacket (lazyPacket_steps h n p)).
Proof.
  intros HI. induction n as [|n IH]; intros p Hp; simpl; [exact Hp|].
  apply IH, decodeNextLayer_stable; assumption.
Qed.

Lemma Packet_Layers_stable I h fuel pk ls pk' :
  BuilderStable I -> I (Packet_packet pk) ->
  Packet_Layers h fuel pk = Some (ls, pk') -> I (Packet_packet pk').
Proof.
  intros HI Hp H. destruct pk as [p|p].
  - simpl in H. injection H as <- <-. exact Hp.
  - destruct (lazy_Layers_spec _ _ _ _ _ H) as (n & _ & -> & _).
    simpl. apply steps_stable; assumption.
Qed.

Lemma NewPacket_stable I h d dec opts :
  BuilderStable I -> (forall d', I (newPacketStruct d')) ->
  I (Packet_packet (snd (NewPacket h d dec opts))).
Proof.
  intros HI H0. unfold NewPacket.
  destruct (if negb (NoCopy opts) then _ else _) as [h' d'].
  destruct (Lazy opts); simpl; [apply H0|].
  unfold eagerPacket_initialDecode.
  pose proof (eagerRun_stable I h'
    (Decoder_Decode dec (data (newPacketStruct d'))
       (readSlice h' (data (newPacketStruct d'))))
    HI (newPacketStruct d') (H0 d')) as Hs.
  destruct (eagerRun h' _ (newPacketStruct d')) as [p' o]. simpl in Hs.
  apply recoverDecodeError_stable; assumption.
Qed.

Lemma LastIsFinal_stable : BuilderStable LastIsFinal.
Proof.
  split.
  - intros l p _. unfold LastIsFinal. simpl. symmetry. apply last_snoc.
  - intros r l p H. unfold LastIsFinal.
    rewrite SetLayer_last, SetLayer_layers. exact H.
Qed.

Lemma handedPayload_final p :
  LastIsFinal p ->
  handedPayload p = match list.last (layers p) with
                    | Some l => Layer_LayerPayload l
                    | None => data p
                    end.
Proof. intros H. unfold handedPayload. rewrite H. reflexivity. Qed.

(** X1.  [p.last] always is the final element of [p.layers]: this holds
    for the packet [NewPacket] returns and is kept by every accessor
    call, so the slice handed to the next decoder is the payload of the
    final layer of the list, or the buffer when the list is empty. *)
Theorem last_is_final_layer (h : heap) (d : slice) (dec : option Decoder)
    (opts : DecodeOptions) :
  let pk := snd (NewPacket h d dec opts) in
  LastIsFinal (Packet_packet pk) /\
  (forall pk0,
     LastIsFinal (Packet_packet pk0) ->
     handedPayload (Packet_packet pk0)
     = match list.last (layers (Packet_packet pk0)) with
       | Some l => Layer_LayerPayload l
       | None => data (Packet_packet pk0)
       end /\
     (forall h' a fuel res pk',
        Packet_call h' a fuel pk0 = Some (res, pk') ->
        LastIsFinal (Packet_packet pk')) /\
     (forall h' fuel ls pk',
        Packet_Layers h' fuel pk0 = Some (ls, pk') ->
        LastIsFinal (Packet_packet pk'))).
Proof.
  split.
  - apply NewPacket_stable; [apply LastIsFinal_stable | reflexivity].
  - intros pk0 H0. split; [apply handedPayload_final, H0|]. split.
    + intros h' a fuel res pk' H.
      eapply Packet_call_stable; [apply LastIsFinal_stable | exact H0 | exact H].
    + intros h' fuel ls pk' H.
      eapply Packet_Layers_stable; [apply LastIsFinal_stable | exact H0 | exact H].
Qed.

Lemma SetLayer_capInfo r l p : capInfo (packet_SetLayer r l p) = capInfo p.
Proof.
  destruct r; simpl;
    unfold packet_SetLinkLayer, packet_SetNetworkLayer,
      packet_SetTransportLayer, packet_SetApplicationLayer,
      packet_SetErrorLayer;
    match goal with |- context [match ?x with _ => _ end] => destruct x end;
    reflexivity.
Qed.

Lemma kept_stable (p0 : packet) :
  BuilderStable (fun p => layers p0 `prefix_of` layers p /\
                          data p = data p0 /\ capInfo p = capInfo p0).
Proof.
  split.
  - intros l p (Hl & Hd & Hc). split; [|auto].
    simpl. apply prefix_app_r, Hl.
  - intros r l p (Hl & Hd & Hc).
    rewrite SetLayer_layers, SetLayer_data, SetLayer_capInfo. auto.
Qed.

(** X2.  No accessor call takes anything back: the layers the packet had
    before the call are a prefix of the layers it has after it, and the
    buffer and the capture information are the same.  The same holds for
    [Layers]. *)
Theorem accessors_only_append (h : heap) (pk : Packet) :
  (forall a fuel res pk',
     Packet_call h a fuel pk = Some (res, pk') ->
     layers (Packet_packet pk) `prefix_of` layers (Packet_packet pk') /\
     Packet_Data pk' = Packet_Data pk /\
     capInfo (Packet_packet pk') = capInfo (Packet_packet pk)) /\
  (forall fuel ls pk',
     Packet_Layers h fuel pk = Some (ls, pk') ->
     layers (Packet_packet pk) `prefix_of` ls /\
     Packet_Data pk' = Packet_Data pk /\
     capInfo (Packet_packet pk') = capInfo (Packet_packet pk)).
Proof.
  assert (H0 : layers (Packet_packet pk) `prefix_of` layers (Packet_packet pk) /\
               data (Packet_packet pk) = data (Packet_packet pk) /\
               capInfo (Packet_packet pk) = capInfo (Packet_packet pk))
    by (split; [reflexivity | auto]).
  split.
  - intros a fuel res pk' H.
    apply (Packet_call_stable _ h a fuel pk res pk'
             (kept_stable (Packet_packet pk)) H0 H).
  - intros fuel ls pk' H.
    rewrite (Packet_Layers_result _ _ _ _ _ H).
    apply (Packet_Layers_stable _ h fuel pk ls pk'
             (kept_stable (Packet_packet pk)) H0 H).
Qed.

(** ** Lazy accessors against the fully decoded packet *)

Lemma steps_drained_le h n m p :
  next (lazyPacket_steps h n p) = None -> n <= m ->
  lazyPacket_steps h m p = lazyPacket_steps h n p.
Proof.
  intros Hn Hle. replace m with (n + (m - n)) by lia.
  rewrite steps_add. apply steps_idle, Hn.
Qed.

Lemma steps_drained_unique h n m p :
  next (lazyPacket_steps h n p) = None ->
  next (lazyPacket_steps h m p) = None ->
  lazyPacket_steps h n p = lazyPacket_steps h m p.
Proof.
  intros Hn Hm. destruct (Nat.le_gt_cases n m).
  - symmetry. apply steps_drained_le; assumption.
  - apply steps_drained_le; [assumption | lia].
Qed.

Lemma firstLayer_app_Some hit ls1 ls2 l :
  firstLayer hit ls1 = Some l -> firstLayer hit (ls1 ++ ls2) = Some l.
Proof.
  induction ls1 as [|x ls1 IH]; simpl; [discriminate|].
  destruct (hit x); [auto | exact IH].
Qed.

Lemma firstLayer_stable hit l :
  BuilderStable (fun p => firstLayer hit (layers p) = Some l).
Proof.
  split.
  - intros l' p H. simpl. apply firstLayer_app_Some, H.
  - intros r l' p H. rewrite SetLayer_layers. exact H.
Qed.

Lemma found_stable a l :
  BuilderStable (fun p => eagerPacket_call a p = Some l).
Proof.
  destruct a.
  - exact (rolePointer_stable RLink l).
  - exact (rolePointer_stable RNetwork l).
  - exact (rolePointer_stable RTransport l).
  - exact (rolePointer_stable RApplication l).
  - exact (rolePointer_stable RError l).
  - apply firstLayer_stable.
  - apply firstLayer_stable.
Qed.

Lemma satisfied_Some a p :
  satisfied a p = true -> exists l, eagerPacket_call a p = Some l.
Proof.
  unfold satisfied. destruct (eagerPacket_call a p) as [l|]; [eauto|discriminate].
Qed.

Lemma lazy_getter_satisfied h fuel p (get : packet -> option Layer) :
  negb (isNil (get (lpacket p))) = true ->
  (p' ← lazyPacket_decodeWhile h (fun q => isNil (get q)) fuel p;
   Some (get (lpacket p'), p')) ≫= (λ '(l, p'), Some (l, LazyPacket p'))
  = Some (get (lpacket p), LazyPacket p).
Proof.
  intros H. rewrite decodeWhile_satisfied; [reflexivity|].
  destruct (get (lpacket p)); [reflexivity | discriminate].
Qed.

Lemma lazy_lookup_satisfied h fuel p hit :
  negb (isNil (firstLayer hit (layers (lpacket p)))) = true ->
  lazyPacket_lookup h hit fuel p ≫= (λ '(l, p'), Some (l, LazyPacket p'))
  = Some (firstLayer hit (layers (lpacket p)), LazyPacket p).
Proof.
  intros H. unfold lazyPacket_lookup.
  destruct (firstLayer hit (layers (lpacket p))); [reflexivity | discriminate].
Qed.

Lemma lazy_call_satisfied h a fuel p :
  satisfied a (lpacket p) = true ->
  Packet_call h a fuel (LazyPacket p)
  = Some (eagerPacket_call a (lpacket p), LazyPacket p).
Proof.
  intros Hs. unfold satisfied in Hs.
  destruct a; simpl in *;
    first [ apply (lazy_getter_satisfied h fuel p _ Hs)
          | apply (lazy_lookup_satisfied h fuel p _ Hs) ].
Qed.

(** X3.  A lazy accessor returns what an eager read of the fully decoded
    packet returns: once the call has returned [res], decoding the rest
    of the packet, however far, does not change the answer. *)
Theorem lazy_answer_is_final (h : heap) (a : Accessor) (fuel : nat)
    (p : lazyPacket) (res : option Layer) (pk' : Packet) (n : nat) :
  Packet_call h a fuel (LazyPacket p) = Some (res, pk') ->
  next (lazyPacket_steps h n p) = None ->
  res = eagerPacket_call a (lpacket (lazyPacket_steps h n p)).
Proof.
  intros H Hn.
  destruct (lazy_call_spec _ _ _ _ _ _ H) as (k & _ & _ & _ & -> & Hstop).
  destruct Hstop as [Hsat|Hnone].
  - destruct (Nat.le_gt_cases k n) as [Hle|Hgt].
    + destruct (satisfied_Some _ _ Hsat) as [l Hl]. rewrite Hl.
      replace n with (k + (n - k)) by lia. rewrite steps_add.
      symmetry. apply (steps_stable _ h (n - k) (found_stable a l)), Hl.
    + rewrite (steps_drained_le h n k p Hn) by lia. reflexivity.
  - rewrite (steps_drained_unique h k n p Hnone Hn). reflexivity.
Qed.

(** X4.  Accessor calls are idempotent.  Once a call has returned,
    the same call on the packet it left returns the same result and
    leaves the packet as it is, whatever the heap and the step budget;
    after [Layers] has returned, every accessor does so. *)
Theorem accessors_idempotent (h : heap) (pk : Packet) :
  (forall a fuel res pk',
     Packet_call h a fuel pk = Some (res, pk') ->
     forall h' fuel', Packet_call h' a fuel' pk' = Some (res, pk')) /\
  (forall fuel ls pk',
     Packet_Layers h fuel pk = Some (ls, pk') ->
     forall h' fuel',
       Packet_Layers h' fuel' pk' = Some (ls, pk') /\
       forall a, Packet_call h' a fuel' pk'
                 = Some (eagerPacket_call a (Packet_packet pk'), pk')).
Proof.
  destruct pk as [p|p]; split.
  - intros a fuel res pk' H. simpl in H. injection H as <- <-. reflexivity.
  - intros fuel ls pk' H. simpl in H. injection H as <- <-.
    intros h' fuel'. split; reflexivity.
  - intros a fuel res pk' H h' fuel'.
    destruct (lazy_call_spec _ _ _ _ _ _ H) as (k & _ & -> & _ & -> & Hstop).
    destruct Hstop as [Hsat|Hnone].
    + apply lazy_call_satisfied, Hsat.
    + destruct (lazyPacket_steps h k p) as [q nq]. simpl in Hnone. subst nq.
      apply lazy_drained_reads.
  - intros fuel ls pk' H h' fuel'.
    destruct (lazy_Layers_spec _ _ _ _ _ H) as (k & _ & -> & _ & -> & Hnone).
    destruct (lazyPacket_steps h k p) as [q nq]. simpl in Hnone. subst nq.
    split; [|intros a; apply lazy_drained_reads].
    simpl. unfold lazyPacket_Layers.
    rewrite decodeWhile_idle by reflexivity. reflexivity.
Qed.

(** X5.  The order of accessor calls does not matter for what the packet
    decodes to: [Layers] called after any accessor call returns the list,
    and leaves the packet, that [Layers] called at once would have. *)
Theorem Layers_after_any_call (h : heap) (p : lazyPacket) (a : Accessor)
    (fuel fuel1 fuel2 : nat) (res : option Layer) (pk' pk1 pk2 : Packet)
    (ls1 ls2 : list Layer) :
  Packet_call h a fuel (LazyPacket p) = Some (res, pk') ->
  Packet_Layers h fuel1 (LazyPacket p) = Some (ls1, pk1) ->
  Packet_Layers h fuel2 pk' = Some (ls2, pk2) ->
  ls2 = ls1 /\ pk2 = pk1.
Proof.
  intros Ha H1 H2.
  destruct (lazy_call_spec _ _ _ _ _ _ Ha) as (k & _ & -> & _).
  destruct (lazy_Layers_spec _ _ _ _ _ H1) as (n1 & _ & -> & _ & -> & Hn1).
  destruct (lazy_Layers_spec _ _ _ _ _ H2) as (n2 & _ & -> & _ & -> & Hn2).
  rewrite <- steps_add in *.
  rewrite (steps_drained_unique h (k + n2) n1 p Hn2 Hn1). auto.
Qed.

(** ** A packet with nothing to hand on *)

Lemma one_step_drains h p :
  len (handedPayload (lpacket p)) = 0 ->
  lazyPacket_steps h 1 p = mkLazy (lpacket p) None.
Proof.
  intros H0. simpl. destruct (next p) as [nxt|] eqn:Hn.
  - apply (decodeNextLayer_empty h p nxt Hn H0).
  - rewrite decodeNextLayer_idle by exact Hn. destruct p; simpl in *; congruence.
Qed.

(** X6.  A lazy packet that has nothing to hand on (its final layer has
    an empty payload, or it has no layer and an empty buffer) is at its
    end whatever decoder is pending: given one step of budget, every
    accessor returns what an eager read of the packet as it stands
    returns and changes no field of it, and [Layers] returns the layers it
    has and leaves nothing pending.  So [NewPacket] with [Lazy] set on an
    empty input gives a packet that never gets a layer. *)
Theorem lazy_nothing_to_hand_on (h : heap) :
  (forall p a fuel,
     len (handedPayload (lpacket p)) = 0 -> 1 <= fuel ->
     (exists pk',
        Packet_call h a fuel (LazyPacket p)
        = Some (eagerPacket_call a (lpacket p), pk') /\
        Packet_packet pk' = lpacket p) /\
     Packet_Layers h fuel (LazyPacket p)
     = Some (layers (lpacket p), LazyPacket (mkLazy (lpacket p) None))) /\
  (forall h0 d dec nc a fuel,
     len d = 0 -> 1 <= fuel ->
     let pk := snd (NewPacket h0 d dec (mkOptions true nc)) in
     option_map fst (Packet_call h a fuel pk) = Some None /\
     option_map fst (Packet_Layers h fuel pk) = Some []).
Proof.
  assert (Hgen : forall p a fuel,
     len (handedPayload (lpacket p)) = 0 -> 1 <= fuel ->
     (exists pk',
        Packet_call h a fuel (LazyPacket p)
        = Some (eagerPacket_call a (lpacket p), pk') /\
        Packet_packet pk' = lpacket p) /\
     Packet_Layers h fuel (LazyPacket p)
     = Some (layers (lpacket p), LazyPacket (mkLazy (lpacket p) None))).
  { intros p a fuel H0 Hfuel.
    pose proof (one_step_drains h p H0) as H1.
    assert (Hn : next (lazyPacket_steps h 1 p) = None) by (rewrite H1; reflexivity).
    split.
    - destruct (Packet_call_enough_at h a 1 p fuel Hn Hfuel) as [[res pk'] Hc].
      destruct (lazy_empty_payload_terminal h a fuel p res pk' H0 Hc) as [Hp ->].
      exists pk'. auto.
    - simpl. unfold lazyPacket_Layers.
      rewrite (decodeWhile_drain h 1 p (mkLazy (lpacket p) None) fuel H1 eq_refl Hfuel).
      reflexivity. }
  split; [exact Hgen|].
  intros h0 d dec nc a fuel Hd Hfuel pk.
  assert (Hpk : exists d', len d' = 0 /\
                  pk = LazyPacket (mkLazy (newPacketStruct d') dec)).
  { unfold pk, NewPacket. simpl. destruct nc; simpl.
    - exists d. auto.
    - exists (mkSlice (length h0) 0 (len d)). auto. }
  destruct Hpk as (d' & Hd' & ->).
  destruct (Hgen (mkLazy (newPacketStruct d') dec) a fuel Hd' Hfuel)
    as [(pk' & Hc & _) HL].
  rewrite Hc, HL. simpl. split; [|reflexivity].
  destruct a; reflexivity.
Qed.

(** X7.  With a nil first decoder the two engines part ways: the eager
    packet consists of one failure layer that holds the whole buffer (the
    call on the nil decoder panics and is recovered), with no role
    claimed; the lazy packet has nothing pending, so every accessor
    returns nil and [Layers] returns no layer, on any budget. *)
Theorem nil_first_decoder (h : heap) (d : slice) (nc : bool) :
  (let pk := snd (NewPacket h d None (mkOptions false nc)) in
   (exists f, layers (Packet_packet pk) = [FailureLayer f] /\
              fdata f = Packet_Data pk) /\
   forall r, rolePointer r (Packet_packet pk) = None) /\
  (let pk := snd (NewPacket h d None (mkOptions true nc)) in
   forall h' fuel,
     Packet_Layers h' fuel pk = Some ([], pk) /\
     forall a, Packet_call h' a fuel pk = Some (None, pk)).
Proof.
  split.
  - unfold NewPacket. simpl. destruct nc; simpl;
      (split; [eexists; split; reflexivity | intros r; destruct r; reflexivity]).
  - assert (Hpk : exists d',
              snd (NewPacket h d None (mkOptions true nc))
              = LazyPacket (mkLazy (newPacketStruct d') None)).
    { unfold NewPacket. simpl. destruct nc; simpl; eauto. }
    destruct Hpk as [d' ->]. cbv zeta. intros h' fuel. split.
    + simpl. unfold lazyPacket_Layers. rewrite decodeWhile_idle by reflexivity.
      reflexivity.
    + intros a. rewrite lazy_drained_reads. destruct a; reflexivity.
Qed.

(** ** The channel of a PacketSource *)

Lemma is_EOF_false e : e <> io_EOF -> is_EOF e = false.
Proof. destruct e; simpl; congruence. Qed.

Lemma packetsToChannel_step fuel h p :
  PacketSource_packetsToChannel (S fuel) h p
  = (let '(h', p', (pk, e)) := PacketSource_NextPacket h p in
     match e with
     | Some e' =>
         if is_EOF e' then Some [Close]
         else PacketSource_packetsToChannel fuel h' p'
     | None =>
         evs ← PacketSource_packetsToChannel fuel h' p';
         Some (Send pk :: evs)
     end).
Proof. reflexivity. Qed.

Lemma NextPackets_step n h p :
  PacketSource_NextPackets (S n) h p
  = (let '(h', p', r) := PacketSource_NextPacket h p in
     r :: PacketSource_NextPackets n h' p').
Proof. reflexivity. Qed.

Lemma channel_until_EOF n :
  forall h p,
    (forall k, k < n ->
       reads (source p) (pos (source p) + k) <> ReadErr io_EOF) ->
    reads (source p) (pos (source p) + n) = ReadErr io_EOF ->
    forall fuel, n < fuel ->
      PacketSource_packetsToChannel fuel h p
      = Some (map Send (deliveredPackets (PacketSource_NextPackets n h p))
              ++ [Close]).
Proof.
  induction n as [|n IH]; intros h p Hbefore Heof [|fuel] Hlt; try lia.
  - rewrite Nat.add_0_r in Heof. rewrite packetsToChannel_step.
    rewrite (NextPacket_error h p _ Heof). reflexivity.
  - pose proof (Hbefore 0 ltac:(lia)) as H0. rewrite Nat.add_0_r in H0.
    rewrite packetsToChannel_step, NextPackets_step.
    destruct (reads (source p) (pos (source p))) as [d ci|e] eqn:Hr.
    + destruct (NextPacket_ok h p d ci Hr) as (h' & pk & -> & _).
      cbv beta iota zeta. rewrite (IH h' _); [reflexivity | | | lia]; simpl.
      * intros k Hk. replace (S (pos (source p) + k))
          with (pos (source p) + S k) by lia. apply Hbefore. lia.
      * replace (S (pos (source p) + n)) with (pos (source p) + S n) by lia.
        exact Heof.
    + rewrite (NextPacket_error h p e Hr). cbv beta iota zeta.
      rewrite is_EOF_false by congruence.
      rewrite (IH h _); [reflexivity | | | lia]; simpl.
      * intros k Hk. replace (S (pos (source p) + k))
          with (pos (source p) + S k) by lia. apply Hbefore. lia.
      * replace (S (pos (source p) + n)) with (pos (source p) + S n) by lia.
        exact Heof.
Qed.

(** X8.  What the goroutine of [Packets] sends is exactly what
    [NextPacket] would have returned without error, in the same order:
    if the first [io.EOF] of the source comes at its read [n], the channel
    gets the packets of the successful reads among the first [n], one send
    each, the reads that failed otherwise leave no trace, and then the
    channel is closed. *)
Theorem channel_carries_successful_reads (h : heap) (p : PacketSource)
    (n fuel : nat) :
  (forall k, k < n ->
     reads (source p) (pos (source p) + k) <> ReadErr io_EOF) ->
  reads (source p) (pos (source p) + n) = ReadErr io_EOF ->
  n < fuel ->
  PacketSource_packetsToChannel fuel h p
  = Some (map Send (deliveredPackets (PacketSource_NextPackets n h p))
          ++ [Close]) /\
  length (deliveredPackets (PacketSource_NextPackets n h p)) <= n.
Proof.
  intros Hbefore Heof Hlt. split; [apply channel_until_EOF; assumption|].
  clear. revert h p. induction n as [|n IH]; intros h p; [simpl; lia|].
  rewrite NextPackets_step.
  destruct (PacketSource_NextPacket h p) as [[h' p'] [pk [e|]]]; simpl;
    specialize (IH h' p'); lia.
Qed.

(** X9.  Without [io.EOF] the goroutine of [Packets] never closes the
    channel and never returns: for a source none of whose coming reads
    is [io.EOF], the loop is still running after any number of turns. *)
Theorem channel_not_closed_without_EOF (p : PacketSource) :
  (forall k, reads (source p) (pos (source p) + k) <> ReadErr io_EOF) ->
  forall fuel h, PacketSource_packetsToChannel fuel h p = None.
Proof.
  intros Hnever fuel. revert p Hnever.
  induction fuel as [|fuel IH]; intros p Hnever h; [reflexivity|].
  assert (Hnext : forall h',
    PacketSource_packetsToChannel fuel h'
      (mkPacketSource (mkSource (reads (source p)) (S (pos (source p))))
                      (decoder p) (options p)) = None).
  { intros h'. apply IH. simpl. intros k.
    replace (S (pos (source p) + k)) with (pos (source p) + S k) by lia.
    apply Hnever. }
  pose proof (Hnever 0) as H0. rewrite Nat.add_0_r in H0.
  rewrite packetsToChannel_step.
  destruct (reads (source p) (pos (source p))) as [d ci|e] eqn:Hr.
  - destruct (NextPacket_ok h p d ci Hr) as (h' & pk & -> & _).
    cbv beta iota zeta. rewrite Hnext. reflexivity.
  - rewrite (NextPacket_error h p e Hr). cbv beta iota zeta.
    rewrite is_EOF_false by congruence. apply Hnext.
Qed.

(** ** Memory *)

Lemma copy_keeps_old (h : list (list byte)) dst src b :
  b <> base dst -> copy h dst src !! b = h !! b.
Proof. intros H. unfold copy. apply list_lookup_alter_ne. auto. Qed.

Lemma NewPacket_heap h d dec opts :
  let h' := fst (NewPacket h d dec opts) in
  length h' = length h + (if NoCopy opts then 0 else 1) /\
  forall b, b < length h -> h' !! b = h !! b.
Proof.
  destruct (NewPacket_buffer h d dec opts) as [-> _].
  destruct (NoCopy opts); simpl.
  - split; [lia | reflexivity].
  - split.
    + unfold copy. rewrite length_alter, length_app. simpl. lia.
    + intros b Hb. rewrite copy_keeps_old by (simpl; lia).
      apply lookup_app_l, Hb.
Qed.

(** X10.  [NewPacket] writes to no array that exists when it is called:
    it leaves the heap as it is when [NoCopy] is set and adds exactly one
    array when it is not.  The same holds call after call for
    [NextPacket], so the bytes of the input and of every packet built
    before read the same after any number of further calls. *)
Theorem construction_keeps_memory (h : heap) :
  (forall d dec opts,
     let h' := fst (NewPacket h d dec opts) in
     length h' = length h + (if NoCopy opts then 0 else 1) /\
     (forall b, b < length h -> h' !! b = h !! b) /\
     (forall s, base s < length h -> readSlice h' s = readSlice h s)) /\
  (forall p,
     let h' := fst (fst (PacketSource_NextPacket h p)) in
     length h <= length h' /\
     (forall b, b < length h -> h' !! b = h !! b) /\
     (forall s, base s < length h -> readSlice h' s = readSlice h s)).
Proof.
  assert (Hread : forall h' : list (list byte),
            (forall b, b < length h -> h' !! b = h !! b) ->
            forall s, base s < length h -> readSlice h' s = readSlice h s).
  { intros h' Hold s Hs. apply readSlice_same_backing.
    unfold backing. rewrite Hold by exact Hs. reflexivity. }
  split.
  - intros d dec opts h'.
    destruct (NewPacket_heap h d dec opts) as [Hlen Hold].
    split; [exact Hlen|]. split; [exact Hold | apply Hread, Hold].
  - intros p h'. unfold h', PacketSource_NextPacket. simpl.
    destruct (reads (source p) (pos (source p))) as [d ci|e].
    + destruct (NewPacket_heap h d (decoder p) (options p)) as [Hlen Hold].
      destruct (NewPacket h d (decoder p) (options p)) as [h1 pk].
      simpl in *. split; [lia|]. split; [exact Hold | apply Hread, Hold].
    + simpl. split; [lia|]. split; [reflexivity | reflexivity].
Qed.

(** ** Looking a layer up *)

Lemma firstLayer_spec hit ls :
  match firstLayer hit ls with
  | Some l => exists pre post,
      ls = pre ++ l :: post /\ hit l = true /\
      Forall (fun x => hit x = false) pre
  | None => Forall (fun x => hit x = false) ls
  end.
Proof.
  induction ls as [|x ls IH]; simpl; [constructor|].
  destruct (hit x) eqn:Hx.
  - exists [], ls. auto.
  - destruct (firstLayer hit ls) as [l|].
    + destruct IH as (pre & post & -> & Hl & Hpre).
      exists (x :: pre), post. auto.
    + constructor; assumption.
Qed.

(** X11.  On the layers a packet has, [Layer(t)] returns the first layer
    of type [t] and nil exactly when there is none; [LayerClass(lc)] does
    the same for the types [lc] contains. *)
Theorem lookup_returns_first (p : packet) :
  (forall t,
     match eagerPacket_Layer t p with
     | Some l => exists pre post,
         layers p = pre ++ l :: post /\ Layer_LayerType l = t /\
         Forall (fun x => Layer_LayerType x <> t) pre
     | None => Forall (fun x => Layer_LayerType x <> t) (layers p)
     end) /\
  (forall lc : LayerClass,
     match eagerPacket_LayerClass lc p with
     | Some l => exists pre post,
         layers p = pre ++ l :: post /\ lc (Layer_LayerType l) = true /\
         Forall (fun x => lc (Layer_LayerType x) = false) pre
     | None => Forall (fun x => lc (Layer_LayerType x) = false) (layers p)
     end).
Proof.
  split.
  - intros t. unfold eagerPacket_Layer.
    pose proof (firstLayer_spec (fun l => Z.eqb (Layer_LayerType l) t) (layers p)) as H.
    destruct (firstLayer _ (layers p)) as [l|].
    + destruct H as (pre & post & E & Hl & Hpre).
      exists pre, post. split; [exact E|]. split; [apply Z.eqb_eq, Hl|].
      eapply Forall_impl; [exact Hpre|]. intros x Hx. apply Z.eqb_neq, Hx.
    + eapply Forall_impl; [exact H|]. intros x Hx. apply Z.eqb_neq, Hx.
  - intros lc. unfold eagerPacket_LayerClass.
    apply (firstLayer_spec (fun l => lc (Layer_LayerType l)) (layers p)).
Qed.

(** ** Where a failure layer can be *)

Lemma FailureOnlyLast_protos ls :
  Forall (fun l => isFailure l = false) ls -> FailureOnlyLast ls.
Proof.
  intros H. exists ls, []. split; [symmetry; apply app_nil_r|]. auto.
Qed.

Lemma eagerRun_adds_no_failure h body :
  AddsNoFailure body ->
  forall p, Forall (fun l => isFailure l = false) (layers p) ->
    Forall (fun l => isFailure l = false) (layers (fst (eagerRun h body p))).
Proof.
  intros HA.
  induction HA as [e|v|l k Hl Hk IH|r l k Hk IH|k Hk IH|dec k Hdec IHdec Hk IH];
    intros p Hp.
  - exact Hp.
  - exact Hp.
  - simpl. apply IH. simpl. apply Forall_app. split; [exact Hp|].
    constructor; [exact Hl | constructor].
  - simpl. apply IH. rewrite SetLayer_layers. exact Hp.
  - rewrite eagerRun_NextDecoder_nil. apply IH, Hp.
  - destruct (last p) as [l|] eqn:Hlast.
    + destruct (Nat.eq_dec (len (Layer_LayerPayload l)) 0) as [H0|H0].
      * rewrite (eagerRun_NextDecoder_empty _ _ _ _ _ Hlast H0). apply IH, Hp.
      * rewrite (eagerRun_NextDecoder_call _ _ _ _ _ Hlast H0).
        specialize (IHdec (Layer_LayerPayload l)
                          (readSlice h (Layer_LayerPayload l)) p Hp).
        destruct (eagerRun h (dec _ _) p) as [p' [e|v]]; simpl in IHdec.
        -- apply IH, IHdec.
        -- exact IHdec.
    + rewrite (eagerRun_NextDecoder_noLayer _ _ _ _ Hlast). apply IH, Hp.
Qed.

Lemma lazyRun_adds_no_failure body :
  AddsNoFailure body ->
  forall p, Forall (fun l => isFailure l = false) (layers (lpacket p)) ->
    DecoderAddsNoFailure (next p) ->
    Forall (fun l => isFailure l = false)
           (layers (lpacket (fst (lazyRun body p)))) /\
    DecoderAddsNoFailure (next (fst (lazyRun body p))).
Proof.
  intros HA.
  induction HA as [e|v|l k Hl Hk IH|r l k Hk IH|k Hk IH|dec k Hdec IHdec Hk IH];
    intros p Hp Hn; simpl.
  - auto.
  - auto.
  - apply IH; simpl; [|exact Hn]. apply Forall_app. split; [exact Hp|].
    constructor; [exact Hl | constructor].
  - apply IH; simpl; [|exact Hn]. rewrite SetLayer_layers. exact Hp.
  - apply IH; assumption.
  - apply IH; simpl; [exact Hp | exact Hdec].
Qed.

Lemma recover_FailureOnlyLast r p :
  Forall (fun l => isFailure l = false) (layers p) ->
  FailureOnlyLast (layers (packet_recoverDecodeError r p)).
Proof.
  intros Hp. destruct r as [r|]; [|apply FailureOnlyLast_protos, Hp].
  destruct (recoverDecodeError_fails r p) as [-> _].
  eexists (layers p), [_]. split; [reflexivity|]. split; [exact Hp|].
  right. eexists. reflexivity.
Qed.

Lemma decodeNextLayer_FailureTerminal h p :
  (forall f, len (DecodeFailure_LayerPayload f) = 0) ->
  FailureTerminal (LazyPacket p) ->
  FailureTerminal (LazyPacket (lazyPacket_decodeNextLayer h p)).
Proof.
  intros Hempty (Hlast & Hfl & Hn). simpl in Hlast, Hfl, Hn.
  destruct (next p) as [nxt|] eqn:Hnext.
  - destruct (Nat.eq_dec (len (handedPayload (lpacket p))) 0) as [H0|H0].
    + rewrite (decodeNextLayer_empty h p nxt Hnext H0).
      split; [exact Hlast|]. split; [exact Hfl | exact I].
    + rewrite (decodeNextLayer_run h p nxt Hnext H0).
      assert (Hprotos : Forall (fun l => isFailure l = false)
                               (layers (lpacket p))).
      { destruct Hfl as (protos & tl & E & Hp & [->|[f ->]]).
        - rewrite E, app_nil_r. exact Hp.
        - exfalso. apply H0. rewrite (handedPayload_final _ Hlast), E.
          rewrite last_snoc. apply Hempty. }
      destruct (lazyRun_adds_no_failure _
                  (Hn (handedPayload (lpacket p))
                      (readSlice h (handedPayload (lpacket p))))
                  (mkLazy (lpacket p) None) Hprotos I) as [Hp' Hn'].
      pose proof (lazyRun_stable _
        (nxt (handedPayload (lpacket p)) (readSlice h (handedPayload (lpacket p))))
        LastIsFinal_stable (mkLazy (lpacket p) None) Hlast) as Hl'.
      unfold lazyPacket_afterDecode.
      destruct (lazyRun _ (mkLazy (lpacket p) None)) as [p' o].
      simpl in *. split; [|split; [|exact Hn']].
      * apply recoverDecodeError_stable; [apply LastIsFinal_stable | exact Hl'].
      * apply recover_FailureOnlyLast, Hp'.
  - rewrite decodeNextLayer_idle by exact Hnext.
    split; [exact Hlast|]. split; [exact Hfl|]. simpl. rewrite Hnext. exact I.
Qed.

Lemma steps_FailureTerminal h n :
  (forall f, len (DecodeFailure_LayerPayload f) = 0) ->
  forall p, FailureTerminal (LazyPacket p) ->
    FailureTerminal (LazyPacket (lazyPacket_steps h n p)).
Proof.
  intros Hempty. induction n as [|n IH]; intros p Hp; simpl; [exact Hp|].
  apply IH, decodeNextLayer_FailureTerminal; assumption.
Qed.

(** X12.  For decoders that add no failure layer of their own, a failure
    layer can only be the final layer of a packet, and there is at most
    one.  This holds for every packet [NewPacket] returns; for a lazy
    packet it is kept by every accessor call provided a failure layer has
    an empty payload. *)
Theorem failure_layer_only_last (h : heap) :
  (forall d dec opts,
     DecoderAddsNoFailure dec ->
     FailureTerminal (snd (NewPacket h d dec opts))) /\
  ((forall f, len (DecodeFailure_LayerPayload f) = 0) ->
   forall pk,
     FailureTerminal pk ->
     (forall a fuel res pk',
        Packet_call h a fuel pk = Some (res, pk') -> FailureTerminal pk') /\
     (forall fuel ls pk',
        Packet_Layers h fuel pk = Some (ls, pk') ->
        FailureTerminal pk' /\ FailureOnlyLast ls)).
Proof.
  split.
  - intros d dec opts Hdec. unfold NewPacket.
    destruct (if negb (NoCopy opts) then _ else _) as [h' d'].
    assert (H0 : Forall (fun l => isFailure l = false)
                        (layers (newPacketStruct d'))) by constructor.
    destruct (Lazy opts); simpl.
    + split; [reflexivity|]. split; [apply FailureOnlyLast_protos, H0 | exact Hdec].
    + split; [|split; [|exact I]]; simpl.
      * apply (NewPacket_stable _ h' d' dec (mkOptions false true)
                 LastIsFinal_stable). reflexivity.
      * unfold eagerPacket_initialDecode.
        assert (HA : AddsNoFailure
                       (Decoder_Decode dec (data (newPacketStruct d'))
                          (readSlice h' (data (newPacketStruct d'))))).
        { destruct dec as [f|]; simpl; [apply Hdec | constructor]. }
        pose proof (eagerRun_adds_no_failure h' _ HA _ H0) as Hp.
        destruct (eagerRun h' _ (newPacketStruct d')) as [p' o]. simpl in Hp.
        apply recover_FailureOnlyLast, Hp.
  - intros Hempty pk Hpk. destruct pk as [p|p]; split.
    + intros a fuel res pk' H. simpl in H. injection H as <- <-. exact Hpk.
    + intros fuel ls pk' H. simpl in H. injection H as <- <-.
      split; [exact Hpk | apply Hpk].
    + intros a fuel res pk' H.
      destruct (lazy_call_spec _ _ _ _ _ _ H) as (n & _ & -> & _).
      apply steps_FailureTerminal; assumption.
    + intros fuel ls pk' H.
      destruct (lazy_Layers_spec _ _ _ _ _ H) as (n & _ & -> & _ & -> & _).
      pose proof (steps_FailureTerminal h n Hempty p Hpk) as HT.
      split; [exact HT | apply HT].
Qed.

(** ** Printing *)

Lemma append_assoc (a b c : string) :
  String.append (String.append a b) c = String.append a (String.append b c).
Proof. induction a as [|x a IH]; simpl; [reflexivity | rewrite IH; reflexivity]. Qed.

Lemma append_empty (a : string) : String.append a EmptyString = a.
Proof. induction a as [|x a IH]; simpl; [reflexivity | rewrite IH; reflexivity]. Qed.

Lemma packetString_from_app i ls ls' :
  packetString_from i (ls ++ ls')
  = String.append (packetString_from i ls)
                  (packetString_from (i + length ls) ls').
Proof.
  revert i. induction ls as [|l ls IH]; intros i.
  - simpl. rewrite Nat.add_0_r. reflexivity.
  - cbn [app packetString_from length]. rewrite IH, append_assoc.
    replace (i + S (length ls)) with (S i + length ls) by lia. reflexivity.
Qed.

(** X13.  [String()] prints the layers [Layers()] returns, one block per
    layer, the block of the layer at index [i] being headed "Layer i+1":
    the text for a list with one more layer is the text for the list
    followed by the block of the new layer.  On a lazy packet the call
    decodes all that is pending, so that a second call, or [Layers], finds
    the packet as the first call left it and gives the same text. *)
Theorem String_prints_all_layers (h : heap) (pk : Packet) :
  (forall ls l,
     packetString (ls ++ [l])
     = String.append (packetString ls) (layerBlock (length ls) l)) /\
  (forall fuel txt pk',
     Packet_String h fuel pk = Some (txt, pk') ->
     txt = packetString (layers (Packet_packet pk')) /\
     layers (Packet_packet pk) `prefix_of` layers (Packet_packet pk') /\
     forall h' fuel',
       Packet_String h' fuel' pk' = Some (txt, pk') /\
       Packet_Layers h' fuel' pk' = Some (layers (Packet_packet pk'), pk')).
Proof.
  split.
  - intros ls l. unfold packetString. rewrite packetString_from_app.
    cbn [packetString_from Nat.add]. rewrite append_empty. reflexivity.
  - intros fuel txt pk' H. unfold Packet_String in H.
    destruct (Packet_Layers h fuel pk) as [[ls pk1]|] eqn:HL; simpl in H;
      [|discriminate].
    injection H as <- <-.
    pose proof (Packet_Layers_result _ _ _ _ _ HL) as ->.
    split; [reflexivity|].
    assert (Hidem : forall h' fuel',
              Packet_Layers h' fuel' pk1
              = Some (layers (Packet_packet pk1), pk1)).
    { intros h' fuel'. destruct pk as [p|p].
      - simpl in HL. injection HL as _ <-. reflexivity.
      - destruct (lazy_Layers_spec _ _ _ _ _ HL) as (k & _ & -> & _ & _ & Hnone).
        destruct (lazyPacket_steps h k p) as [q nq]. simpl in Hnone. subst nq.
        simpl. unfold lazyPacket_Layers.
        rewrite decodeWhile_idle by reflexivity. reflexivity. }
    split.
    + pose proof (Packet_Layers_stable _ h fuel pk
                    (layers (Packet_packet pk1)) pk1
                    (grows_stable (layers (Packet_packet pk)))) as Hg.
      destruct Hg as [sfx Hs]; [exists []; symmetry; apply app_nil_r | exact HL |].
      exists sfx. exact Hs.
    + intros h' fuel'. split; [|apply Hidem].
      unfold Packet_String. rewrite Hidem. reflexivity.
Qed.

(** ** One read per call *)

Lemma NextPacket_source h p :
  snd (fst (PacketSource_NextPacket h p))
  = mkPacketSource (mkSource (reads (source p)) (S (pos (source p))))
                   (decoder p) (options p).
Proof.
  unfold PacketSource_NextPacket. simpl.
  destruct (reads (source p) (pos (source p))) as [d ci|e]; [|reflexivity].
  destruct (NewPacket h d (decoder p) (options p)). reflexivity.
Qed.

Lemma after_source n :
  forall h p,
    snd (PacketSource_after n h p)
    = mkPacketSource (mkSource (reads (source p)) (n + pos (source p)))
                     (decoder p) (options p).
Proof.
  induction n as [|n IH]; intros h p.
  - destruct p as [[rs ps] dec opts]. reflexivity.
  - simpl. pose proof (NextPacket_source h p) as Hs.
    destruct (PacketSource_NextPacket h p) as [[h' p'] r]. simpl in Hs.
    rewrite IH, Hs. simpl. f_equal. f_equal. lia.
Qed.

Lemma NextPackets_app n :
  forall m h p,
    PacketSource_NextPackets (n + m) h p
    = PacketSource_NextPackets n h p
      ++ PacketSource_NextPackets m (fst (PacketSource_after n h p))
                                    (snd (PacketSource_after n h p)).
Proof.
  induction n as [|n IH]; intros m h p; [reflexivity|].
  change (S n + m) with (S (n + m)). rewrite !NextPackets_step. simpl.
  destruct (PacketSource_NextPacket h p) as [[h' p'] r].
  rewrite IH. reflexivity.
Qed.

Lemma NextPacket_unfold h p :
  PacketSource_NextPacket h p
  = let p' := mkPacketSource (mkSource (reads (source p)) (S (pos (source p))))
                             (decoder p) (options p) in
    match reads (source p) (pos (source p)) with
    | ReadOk d ci =>
        (fst (NewPacket h d (decoder p) (options p)), p',
         (Some (Packet_setCaptureInfo ci
                  (snd (NewPacket h d (decoder p) (options p)))), None))
    | ReadErr e => (h, p', (None, Some e))
    end.
Proof.
  unfold PacketSource_NextPacket. simpl.
  destruct (reads (source p) (pos (source p))) as [d ci|e]; [|reflexivity].
  destruct (NewPacket h d (decoder p) (options p)). reflexivity.
Qed.

Lemma after_S n :
  forall h p,
    PacketSource_after (S n) h p
    = fst (PacketSource_NextPacket (fst (PacketSource_after n h p))
                                   (snd (PacketSource_after n h p))).
Proof.
  induction n as [|n IH]; intros h p.
  - simpl. destruct (PacketSource_NextPacket h p) as [[h' p'] r]. reflexivity.
  - change (PacketSource_after (S (S n)) h p)
      with (let '(h', p', _) := PacketSource_NextPacket h p in
            PacketSource_after (S n) h' p').
    change (PacketSource_after (S n) h p)
      with (let '(h', p', _) := PacketSource_NextPacket h p in
            PacketSource_after n h' p').
    destruct (PacketSource_NextPacket h p) as [[h' p'] r]. apply IH.
Qed.

Lemma after_heap n :
  forall h p,
    length h <= length (fst (PacketSource_after n h p)) /\
    forall b, b < length h -> fst (PacketSource_after n h p) !! b = h !! b.
Proof.
  induction n as [|n IH]; intros h p.
  - simpl. split; [lia | reflexivity].
  - simpl. rewrite (NextPacket_unfold h p). cbv zeta.
    destruct (reads (source p) (pos (source p))) as [d ci|e].
    + destruct (NewPacket_heap h d (decoder p) (options p)) as [Hlen Hold].
      cbv zeta in Hlen, Hold.
      set (h1 := fst (NewPacket h d (decoder p) (options p))) in *.
      destruct (IH h1 (mkPacketSource
                  (mkSource (reads (source p)) (S (pos (source p))))
                  (decoder p) (options p))) as [Hle Hsame].
      split; [lia|]. intros b Hb. rewrite Hsame by lia. apply Hold, Hb.
    + apply IH.
Qed.

Lemma NextPackets_lookup n :
  forall h p k r,
    PacketSource_NextPackets n h p !! k = Some r ->
    r = snd (PacketSource_NextPacket (fst (PacketSource_after k h p))
                                     (snd (PacketSource_after k h p))).
Proof.
  induction n as [|n IH]; intros h p k r Hk; [discriminate|].
  rewrite NextPackets_step in Hk. destruct k as [|k].
  - simpl. destruct (PacketSource_NextPacket h p) as [[h' p'] r0].
    simpl in Hk. injection Hk as <-. reflexivity.
  - change (PacketSource_after (S k) h p)
      with (let '(h', p', _) := PacketSource_NextPacket h p in
            PacketSource_after k h' p').
    destruct (PacketSource_NextPacket h p) as [[h' p'] r0].
    simpl in Hk. apply (IH h' p' k r Hk).
Qed.

Lemma setCaptureInfo_Data ci pk :
  Packet_Data (Packet_setCaptureInfo ci pk) = Packet_Data pk.
Proof. destruct pk; reflexivity. Qed.

Lemma NewPacket_reads h d dec opts :
  validSlice h d ->
  readSlice (fst (NewPacket h d dec opts))
            (Packet_Data (snd (NewPacket h d dec opts)))
  = readSlice h d.
Proof.
  intros Hv. destruct (NewPacket_buffer h d dec opts) as [-> ->].
  destruct (NoCopy opts); [reflexivity|].
  destruct (make_copy h d Hv) as (_ & _ & Hrd & _). exact Hrd.
Qed.

(** X14.  Every call of [NextPacket] takes exactly one read from the
    source, whether the read succeeds or fails, and leaves the decoder and
    the options as they are; so [n] calls followed by [m] calls return
    what [n + m] calls return.  When the read number [k] of the source
    fails, the call number [k] returns nil with that error and leaves the
    memory as it is.  When it succeeds with the bytes [d] and the capture
    information [ci], the call returns, without an error, the packet that
    [NewPacket] builds from [d] with the decoder and the options of the
    source on the memory the calls before have left, with [ci] as its
    capture information; if [d] lay in an allocated array at the start,
    [Data()] of that packet reads the bytes [d] had then. *)
Theorem one_read_per_call (h : heap) (p : PacketSource) (n : nat) :
  snd (PacketSource_after n h p)
  = mkPacketSource (mkSource (reads (source p)) (n + pos (source p)))
                   (decoder p) (options p) /\
  length (PacketSource_NextPackets n h p) = n /\
  (forall m,
     PacketSource_NextPackets (n + m) h p
     = PacketSource_NextPackets n h p
       ++ PacketSource_NextPackets m (fst (PacketSource_after n h p))
                                     (snd (PacketSource_after n h p))) /\
  (forall k r,
     PacketSource_NextPackets n h p !! k = Some r ->
     let hk := fst (PacketSource_after k h p) in
     let hk' := fst (PacketSource_after (S k) h p) in
     match reads (source p) (pos (source p) + k) with
     | ReadOk d ci =>
         exists pk,
           r = (Some pk, None) /\
           pk = Packet_setCaptureInfo ci
                  (snd (NewPacket hk d (decoder p) (options p))) /\
           hk' = fst (NewPacket hk d (decoder p) (options p)) /\
           capInfo (Packet_packet pk) = ci /\
           (validSlice h d ->
            readSlice hk' (Packet_Data pk) = readSlice h d)
     | ReadErr e => r = (None, Some e) /\ hk' = hk
     end).
Proof.
  split; [apply after_source|]. split; [|split; [intros m; apply NextPackets_app|]].
  - revert h p. induction n as [|n IH]; intros h p; [reflexivity|].
    rewrite NextPackets_step.
    destruct (PacketSource_NextPacket h p) as [[h' p'] r]. simpl.
    rewrite IH. reflexivity.
  - intros k r Hk hk hk'.
    pose proof (NextPackets_lookup n h p k r Hk) as Hr.
    assert (Hhk' : hk' = fst (fst (PacketSource_NextPacket
                                     (fst (PacketSource_after k h p))
                                     (snd (PacketSource_after k h p))))).
    { unfold hk'. rewrite after_S. reflexivity. }
    rewrite (after_source k h p) in Hr, Hhk'.
    rewrite NextPacket_unfold in Hr, Hhk'. cbv zeta in Hr, Hhk'.
    simpl in Hr, Hhk'. fold hk in Hr, Hhk'.
    replace (k + pos (source p)) with (pos (source p) + k) in Hr, Hhk' by lia.
    destruct (reads (source p) (pos (source p) + k)) as [d ci|e].
    + simpl in Hr, Hhk'.
      exists (Packet_setCaptureInfo ci
                (snd (NewPacket hk d (decoder p) (options p)))).
      split; [exact Hr|]. split; [reflexivity|]. split; [exact Hhk'|].
      split; [apply setCaptureInfo_capInfo|].
      intros Hv. rewrite Hhk', setCaptureInfo_Data.
      destruct (after_heap k h p) as [Hle Hsame]. fold hk in Hle, Hsame.
      destruct Hv as [Hin Hb].
      assert (Hback : backing hk (base d) = backing h (base d)).
      { unfold backing. rewrite Hsame by exact Hb. reflexivity. }
      rewrite NewPacket_reads.
      * apply readSlice_same_backing, Hback.
      * split; [rewrite Hback; exact Hin | lia].
    + simpl in Hr, Hhk'. split; [exact Hr | exact Hhk'].
Qed.

(** ** What a builder call touches *)

(** A role setter touches nothing but the pointer of its role: the
    layers, [last], the buffer, the capture information and the pointers
    of the other roles are as before; [AddLayer] touches no role pointer
    and appends exactly its layer, which becomes [last]. *)
Lemma builder_calls_touch_little (p : packet) :
  (forall r l,
     layers (packet_SetLayer r l p) = layers p /\
     last (packet_SetLayer r l p) = last p /\
     data (packet_SetLayer r l p) = data p /\
     capInfo (packet_SetLayer r l p) = capInfo p /\
     forall r', r' <> r ->
       rolePointer r' (packet_SetLayer r l p) = rolePointer r' p) /\
  (forall l,
     layers (packet_AddLayer l p) = layers p ++ [l] /\
     last (packet_AddLayer l p) = Some l /\
     data (packet_AddLayer l p) = data p /\
     capInfo (packet_AddLayer l p) = capInfo p /\
     forall r, rolePointer r (packet_AddLayer l p) = rolePointer r p).
Proof.
  split.
  - intros r l.
    split; [apply SetLayer_layers|]. split; [apply SetLayer_last|].
    split; [apply SetLayer_data|]. split; [apply SetLayer_capInfo|].
    intros r' Hne. destruct r, r'; try congruence; simpl;
      unfold packet_SetLinkLayer, packet_SetNetworkLayer,
        packet_SetTransportLayer, packet_SetApplicationLayer,
        packet_SetErrorLayer;
      match goal with |- context [match ?x with _ => _ end] => destruct x end;
      reflexivity.
  - intros l. repeat split.
Qed.

(** ** Roles are claimed by decoders only *)

Lemma SetLayer_other r r' l p :
  r' <> r -> rolePointer r (packet_SetLayer r' l p) = rolePointer r p.
Proof.
  intros Hne. destruct r, r'; try congruence; simpl;
    unfold packet_SetLinkLayer, packet_SetNetworkLayer,
      packet_SetTransportLayer, packet_SetApplicationLayer,
      packet_SetErrorLayer;
    match goal with |- context [match ?x with _ => _ end] => destruct x end;
    reflexivity.
Qed.

Lemma recover_role r v p :
  rolePointer r (packet_recoverDecodeError v p) = rolePointer r p.
Proof. destruct v as [v|]; [|reflexivity]. destruct r; reflexivity. Qed.

Lemma eagerRun_never_claims h r body :
  NeverClaims r body ->
  forall p, rolePointer r (fst (eagerRun h body p)) = rolePointer r p.
Proof.
  intros HN.
  induction HN as [e|v|l k Hk IH|r' l k Hne Hk IH|k Hk IH|dec k Hdec IHdec Hk IH];
    intros p.
  - reflexivity.
  - reflexivity.
  - simpl. rewrite IH. destruct r; reflexivity.
  - simpl. rewrite IH. apply SetLayer_other, Hne.
  - rewrite eagerRun_NextDecoder_nil. apply IH.
  - destruct (last p) as [l|] eqn:Hlast.
    + destruct (Nat.eq_dec (len (Layer_LayerPayload l)) 0) as [H0|H0].
      * rewrite (eagerRun_NextDecoder_empty _ _ _ _ _ Hlast H0). apply IH.
      * rewrite (eagerRun_NextDecoder_call _ _ _ _ _ Hlast H0).
        specialize (IHdec (Layer_LayerPayload l)
                          (readSlice h (Layer_LayerPayload l)) p).
        destruct (eagerRun h (dec _ _) p) as [p' [e|v]]; simpl in IHdec.
        -- rewrite IH. exact IHdec.
        -- exact IHdec.
    + rewrite (eagerRun_NextDecoder_noLayer _ _ _ _ Hlast). apply IH.
Qed.

Lemma lazyRun_never_claims r body :
  NeverClaims r body ->
  forall p, DecoderNeverClaims r (next p) ->
    rolePointer r (lpacket (fst (lazyRun body p))) = rolePointer r (lpacket p) /\
    DecoderNeverClaims r (next (fst (lazyRun body p))).
Proof.
  intros HN.
  induction HN as [e|v|l k Hk IH|r' l k Hne Hk IH|k Hk IH|dec k Hdec IHdec Hk IH];
    intros p Hn; simpl.
  - auto.
  - auto.
  - destruct (IH (mkLazy (packet_AddLayer l (lpacket p)) (next p)) Hn) as [E D].
    split; [|exact D]. rewrite E. destruct r; reflexivity.
  - destruct (IH (mkLazy (packet_SetLayer r' l (lpacket p)) (next p)) Hn)
      as [E D].
    split; [|exact D]. rewrite E. simpl. apply SetLayer_other, Hne.
  - apply IH, Hn.
  - apply (IH None (mkLazy (lpacket p) (Some dec))). exact Hdec.
Qed.

Lemma decodeNextLayer_unclaimed h r p :
  Unclaimed r (LazyPacket p) ->
  Unclaimed r (LazyPacket (lazyPacket_decodeNextLayer h p)).
Proof.
  intros [Hr Hn]. simpl in Hr, Hn.
  destruct (next p) as [nxt|] eqn:Hnext.
  - destruct (Nat.eq_dec (len (handedPayload (lpacket p))) 0) as [H0|H0].
    + rewrite (decodeNextLayer_empty h p nxt Hnext H0). split; [exact Hr|exact I].
    + rewrite (decodeNextLayer_run h p nxt Hnext H0).
      destruct (lazyRun_never_claims r _
                  (Hn (handedPayload (lpacket p))
                      (readSlice h (handedPayload (lpacket p))))
                  (mkLazy (lpacket p) None) I) as [E D].
      unfold lazyPacket_afterDecode. split; simpl.
      * rewrite recover_role, E. exact Hr.
      * exact D.
  - rewrite decodeNextLayer_idle by exact Hnext.
    split; [exact Hr|]. simpl. rewrite Hnext. exact I.
Qed.

Lemma steps_unclaimed h r n :
  forall p, Unclaimed r (LazyPacket p) ->
    Unclaimed r (LazyPacket (lazyPacket_steps h n p)).
Proof.
  induction n as [|n IH]; intros p Hp; simpl; [exact Hp|].
  apply IH, decodeNextLayer_unclaimed, Hp.
Qed.

(** X15.  The engine claims no role by itself: a role that no decoder of
    the chain claims is nil in the packet [NewPacket] returns and stays
    nil through every accessor call, so its getter returns nil.  This
    includes the error role after a recovered failure: the failure layer
    is added to the layers but not registered, and [ErrorLayer()] returns
    nil unless a decoder has called [SetErrorLayer]. *)
Theorem roles_claimed_by_decoders_only (h : heap) (r : Role) :
  (forall d dec opts,
     DecoderNeverClaims r dec ->
     Unclaimed r (snd (NewPacket h d dec opts))) /\
  (forall pk,
     Unclaimed r pk ->
     (forall a fuel res pk',
        Packet_call h a fuel pk = Some (res, pk') -> Unclaimed r pk') /\
     (forall fuel ls pk',
        Packet_Layers h fuel pk = Some (ls, pk') -> Unclaimed r pk') /\
     (forall fuel res pk',
        Packet_call h (roleGetter r) fuel pk = Some (res, pk') -> res = None)).
Proof.
  split.
  - intros d dec opts Hdec. unfold NewPacket.
    destruct (if negb (NoCopy opts) then _ else _) as [h' d'].
    destruct (Lazy opts); simpl.
    + split; [destruct r; reflexivity | exact Hdec].
    + split; [|exact I]. simpl. unfold eagerPacket_initialDecode.
      assert (HN : NeverClaims r
                     (Decoder_Decode dec (data (newPacketStruct d'))
                        (readSlice h' (data (newPacketStruct d'))))).
      { destruct dec as [f|]; simpl; [apply Hdec | constructor]. }
      pose proof (eagerRun_never_claims h' r _ HN (newPacketStruct d')) as E.
      destruct (eagerRun h' _ (newPacketStruct d')) as [p' o]. simpl in E.
      rewrite recover_role, E. destruct r; reflexivity.
  - intros pk Hpk.
    assert (Hcall : forall a fuel res pk',
              Packet_call h a fuel pk = Some (res, pk') -> Unclaimed r pk').
    { intros a fuel res pk' H. destruct pk as [p|p].
      - simpl in H. injection H as <- <-. exact Hpk.
      - destruct (lazy_call_spec _ _ _ _ _ _ H) as (n & _ & -> & _).
        apply steps_unclaimed, Hpk. }
    split; [exact Hcall|]. split.
    + intros fuel ls pk' H. destruct pk as [p|p].
      * simpl in H. injection H as <- <-. exact Hpk.
      * destruct (lazy_Layers_spec _ _ _ _ _ H) as (n & _ & -> & _).
        apply steps_unclaimed, Hpk.
    + intros fuel res pk' H. destruct pk as [p|p].
      * simpl in H. injection H as <- <-. destruct Hpk as [Hr _].
        destruct r; exact Hr.
      * destruct (lazy_call_spec _ _ _ _ _ _ H) as (n & _ & -> & _ & -> & _).
        destruct (steps_unclaimed h r n p Hpk) as [Hr _].
        destruct r; exact Hr.
Qed.

(** ** A source with the default options *)

(** X16.  A [PacketSource] made by [NewPacketSource] decodes with the
    default options: a successful read gives a packet that is fully
    decoded when [NextPacket] returns (no accessor changes it), carries
    the metadata of the read, and owns its bytes in a fresh array, so
    that the source may overwrite the buffer it returned without any
    effect on the packet. *)
Theorem default_source_packets_are_safe (h : heap) (s : PacketDataSource)
    (dec : option Decoder) (d : slice) (ci : CaptureInfo) :
  reads s (pos s) = ReadOk d ci ->
  validSlice h d ->
  exists h' pe,
    PacketSource_NextPacket h (NewPacketSource s dec)
    = (h', mkPacketSource (mkSource (reads s) (S (pos s))) dec Default,
       (Some (EagerPacket pe), None)) /\
    capInfo pe = ci /\
    base (data pe) = length h /\
    readSlice h' (data pe) = readSlice h d /\
    (forall ws, readSlice (pokes h' d ws) (data pe) = readSlice h d) /\
    (forall h'' a fuel,
       Packet_call h'' a fuel (EagerPacket pe)
       = Some (eagerPacket_call a pe, EagerPacket pe)).
Proof.
  intros Hr Hv.
  destruct (make_copy h d Hv) as (_ & Hne & Hrd & _). simpl in Hne, Hrd.
  set (dc := mkSlice (length h) 0 (len d)) in *.
  set (h' := copy (h ++ [replicate (len d) Byte.x00]) dc d) in *.
  set (pe := eagerPacket_initialDecode h' dec (newPacketStruct dc)).
  assert (Hdata : data (packet_setCaptureInfo ci pe) = dc).
  { change (data (packet_setCaptureInfo ci pe)) with (data pe).
    unfold pe. rewrite initialDecode_data. reflexivity. }
  exists h', (packet_setCaptureInfo ci pe). split.
  - unfold PacketSource_NextPacket, NewPacketSource. simpl. rewrite Hr.
    reflexivity.
  - split; [reflexivity|]. rewrite Hdata.
    split; [reflexivity|]. split; [exact Hrd|]. split; [|reflexivity].
    intros ws. rewrite <- Hrd. apply readSlice_same_backing. simpl.
    apply pokes_other. destruct Hv. lia.
Qed.

End Engine.

(** * The engine on the sample inputs *)

(** C6 on a packet whose transport role is taken: a second claim and a
    decoder that claims the role again leave the first layer in place. *)
Lemma role_pointer_first_write_wins_witness :
  let l1 := cutLayer 20%Z sampleData in
  let p := packet_SetLayer RTransport (Some l1) (newPacketStruct sampleData) in
  rolePointer RTransport p = Some l1 /\
  packet_SetLayer RTransport (Some (cutLayer 30%Z sampleData)) p = p /\
  rolePointer RTransport
    (fst (eagerRun failurePayload sampleHeap
            (decodeTransport 30%Z sampleData []) p)) = Some l1.
Proof.
  intros l1 p.
  assert (Hp : rolePointer RTransport p = Some l1) by reflexivity.
  destruct (role_pointer_first_write_wins failureType failurePayload
              RTransport p l1) as [_ H].
  destruct (H Hp) as (H1 & _ & _ & _ & H5 & _).
  split; [exact Hp|]. split; [apply H1 | apply H5].
Defined.

(** C8 on a packet without layers. *)
Lemma NextDecoder_misuse_witness :
  let p := newPacketStruct sampleData in
  let dec := decodeTransport 20%Z in
  last p = None /\
  eagerRun failurePayload sampleHeap (NextDecoder (Some dec) Return) p
  = (p, Returned (Some noLayersError)) /\
  lazyPacket_NextDecoder (Some dec) (mkLazy p None)
  = (mkLazy p (Some dec), None).
Proof.
  intros p dec.
  destruct (NextDecoder_misuse failurePayload sampleHeap p None Return)
    as (_ & _ & _ & _ & H).
  destruct (H eq_refl dec) as (_ & H2 & H3 & _).
  split; [reflexivity|]. split; [exact H2 | exact H3].
Defined.

(** The claim C8 makes for the lazy engine fails: before any layer is
    added, [NextDecoder] returns nil and the decoder is pending. *)
Lemma lazy_NextDecoder_has_no_layer_check :
  let p := mkLazy (newPacketStruct sampleData) None in
  let dec := decodeTransport 20%Z in
  layers (lpacket p) = [] /\ last (lpacket p) = None /\
  snd (lazyPacket_NextDecoder (Some dec) p) = None /\
  next (fst (lazyPacket_NextDecoder (Some dec) p)) = Some dec /\
  fst (lazyPacket_NextDecoder (Some dec) p) <> p.
Proof.
  simpl. repeat split. discriminate.
Qed.

(** C10 on a decoder that queues two decoders: after its step the second
    one is pending, and the next step runs it. *)
Lemma lazy_NextDecoder_overwrites_witness :
  let d1 := decodeTransport 20%Z in
  let d2 := decodeTransport 30%Z in
  let p0 := mkLazy (newPacketStruct sampleData)
                   (Some (decodeQueueTwice 10%Z d1 d2)) in
  let p := mkLazy (packet_AddLayer (cutLayer 10%Z sampleData)
                                   (newPacketStruct sampleData)) None in
  let q := lazyPacket_decodeNextLayer failurePayload sampleHeap p0 in
  len (handedPayload failurePayload (lpacket p)) <> 0 /\
  next q = Some d2 /\
  layers (lpacket (lazyPacket_decodeNextLayer failurePayload sampleHeap q))
  = [cutLayer 10%Z sampleData; cutLayer 30%Z (mkSlice 0 1 2)].
Proof.
  intros d1 d2 p0 p q.
  assert (Hlen : len (handedPayload failurePayload (lpacket p)) <> 0)
    by (simpl; lia).
  destruct (lazy_NextDecoder_overwrites failurePayload sampleHeap d1 d2 p
              Return) as (_ & _ & _ & H).
  destruct (H eq_refl) as [Hq Hstep].
  change q with (lazyPacket_afterDecode failurePayload
                   (lazyRun (NextDecoder (Some d1)
                               (fun _ => NextDecoder (Some d2) Return)) p)).
  split; [exact Hlen|]. split.
  - rewrite Hq. reflexivity.
  - rewrite (Hstep Hlen). reflexivity.
Defined.


(** C5 on a lazy packet with two decoders to go: the first step runs the
    pending decoder on the whole buffer; [TransportLayer] takes two steps
    and stops on the transport layer. *)
Lemma lazy_decode_step_witness :
  let dec := decodeLayer 10%Z (Some (decodeTransport 20%Z)) in
  let p := mkLazy (newPacketStruct sampleData) (Some dec) in
  let p2 := lazyPacket_steps failurePayload sampleHeap 2 p in
  next p = Some dec /\
  len (handedPayload failurePayload (lpacket p)) <> 0 /\
  lazyPacket_decodeNextLayer failurePayload sampleHeap p
  = mkLazy (packet_AddLayer (cutLayer 10%Z sampleData)
                            (newPacketStruct sampleData))
           (Some (decodeTransport 20%Z)) /\
  Packet_call failureType failurePayload sampleHeap CallTransportLayer 5
              (LazyPacket p)
  = Some (Some (cutLayer 20%Z (mkSlice 0 1 2)), LazyPacket p2) /\
  (exists n, n <= 5 /\ LazyPacket p2
                     = LazyPacket (lazyPacket_steps failurePayload sampleHeap n p) /\
    (forall m, m < n ->
       satisfied failureType CallTransportLayer
         (lpacket (lazyPacket_steps failurePayload sampleHeap m p)) = false /\
       is_Some (next (lazyPacket_steps failurePayload sampleHeap m p)))) /\
  next p2 = None /\ 2 <= 2 /\
  (forall a, exists res pk',
     Packet_call failureType failurePayload sampleHeap a 2 (LazyPacket p)
     = Some (res, pk')) /\
  Packet_Layers failurePayload sampleHeap 2 (LazyPacket p)
  = Some ([cutLayer 10%Z sampleData; cutLayer 20%Z (mkSlice 0 1 2)],
          LazyPacket p2).
Proof.
  intros dec p p2.
  assert (Hdrained : next p2 = None) by reflexivity.
  assert (Hfuel : 2 <= 2) by lia.
  assert (Hlen : len (handedPayload failurePayload (lpacket p)) <> 0)
    by (simpl; lia).
  assert (Hcall : Packet_call failureType failurePayload sampleHeap
                    CallTransportLayer 5 (LazyPacket p)
                  = Some (Some (cutLayer 20%Z (mkSlice 0 1 2)), LazyPacket p2))
    by reflexivity.
  destruct (lazy_decode_step failureType failurePayload sampleHeap p)
    as (_ & Hstep & Hacc & _ & _ & Hreturns).
  destruct (Hstep dec eq_refl) as [_ Hrun].
  destruct (Hacc _ _ _ _ Hcall) as (n & Hle & Hpk & Hbefore & _).
  destruct (Hreturns 2 2 Hdrained Hfuel) as [Hany HLayers].
  split; [reflexivity|]. split; [exact Hlen|]. split.
  - rewrite (Hrun Hlen). reflexivity.
  - split; [exact Hcall|]. split; [exists n; auto|].
    split; [exact Hdrained|]. split; [exact Hfuel|].
    split; [exact Hany | exact HLayers].
Defined.



(** After a recovered failure the error pointer is still nil:
    [recoverDecodeError] adds the failure layer without registering it,
    so [ErrorLayer()] returns nil on a packet whose last layer is the
    failure layer. *)
Example ErrorLayer_nil_after_failure :
  let pk := snd (NewPacket failurePayload sampleHeap sampleData
                   (Some (decodeFail "bad length")) Default) in
  Packet_Layers failurePayload sampleHeap 0 pk
  = Some ([FailureLayer (mkDecodeFailure (errors_New "bad length")
                                         (mkSlice 1 0 3))], pk) /\
  Packet_call failureType failurePayload sampleHeap CallErrorLayer 0 pk
  = Some (None, pk).
Proof. split; reflexivity. Qed.

Lemma decodeTransport_chained ty has s bs :
  Chained has (decodeTransport ty s bs).
Proof. unfold decodeTransport. repeat constructor. Qed.

Lemma decodeLayer_chained ty (nxt : Decoder) has s bs :
  (forall s' bs', Chained true (nxt s' bs')) ->
  Chained has (decodeLayer ty (Some nxt) s bs).
Proof.
  intros H. unfold decodeLayer. destruct (Nat.ltb (len s) 1).
  - constructor.
  - constructor. constructor; [reflexivity | exact H].
Qed.

(** C2 on a chain of three decoders. *)
Lemma eager_lazy_agree_on_chains_witness :
  let dec := decodeLayer 10%Z
               (Some (decodeLayer 20%Z (Some (decodeTransport 30%Z)))) in
  len sampleData <> 0 /\
  (forall s bs, Chained false (dec s bs)) /\
  exists h' pe pl,
    NewPacket failurePayload sampleHeap sampleData (Some dec)
              (mkOptions false false) = (h', EagerPacket pe) /\
    NewPacket failurePayload sampleHeap sampleData (Some dec)
              (mkOptions true false) = (h', LazyPacket pl) /\
    (exists n, forall fuel, n <= fuel ->
       Packet_Layers failurePayload h' fuel (LazyPacket pl)
       = Some (layers pe, LazyPacket (mkLazy pe None))) /\
    (forall a fuel,
       Packet_call failureType failurePayload h' a fuel
                   (LazyPacket (mkLazy pe None))
       = Some (eagerPacket_call failureType a pe,
               LazyPacket (mkLazy pe None))).
Proof.
  intros dec.
  assert (Hlen : len sampleData <> 0) by (simpl; lia).
  assert (Hch : forall s bs, Chained false (dec s bs)).
  { intros s bs. apply decodeLayer_chained. intros s' bs'.
    apply decodeLayer_chained. intros s'' bs''. apply decodeTransport_chained. }
  split; [exact Hlen|]. split; [exact Hch|].
  exact (eager_lazy_agree_on_chains failureType failurePayload sampleHeap
           sampleData dec false Hlen Hch).
Defined.

(** The claim C2 makes fails in several places.  On an empty input the
    eager engine still runs the first decoder, which here fails, while
    the lazy engine finds nothing to hand on and runs no decoder.  A
    first decoder that queues its successor before any layer exists is
    refused by the eager engine and accepted by the lazy one.  A decoder
    that drops the result of [NextDecoder] hides its successor's failure
    from the eager engine only.  A decoder that queues two successors has
    both run by the eager engine and the second only by the lazy one. *)
Lemma eager_and_lazy_can_differ :
  let eagerLayers (d : slice) (dec : Decoder) :=
    option_map fst
      (Packet_Layers failurePayload sampleHeap 5
         (snd (NewPacket failurePayload sampleHeap d (Some dec)
                         (mkOptions false true)))) in
  let lazyLayers (d : slice) (dec : Decoder) :=
    option_map fst
      (Packet_Layers failurePayload sampleHeap 5
         (snd (NewPacket failurePayload sampleHeap d (Some dec)
                         (mkOptions true true)))) in
  let failed (msg : string) (d : slice) :=
    FailureLayer (mkDecodeFailure (errors_New msg) d) in
  (let dec := decodeLayer 10%Z None in
   eagerLayers emptyData dec = Some [failed "short buffer"%string emptyData] /\
   lazyLayers emptyData dec = Some []) /\
  (let dec := decodeDispatch (decodeTransport 20%Z) in
   eagerLayers sampleData dec
   = Some [failed "NextDecoder called, but no layers added yet"%string sampleData] /\
   lazyLayers sampleData dec = Some [cutLayer 20%Z sampleData]) /\
  (let dec := decodeSwallow 10%Z (decodeFail "short buffer") in
   eagerLayers sampleData dec = Some [cutLayer 10%Z sampleData] /\
   lazyLayers sampleData dec
   = Some [cutLayer 10%Z sampleData; failed "short buffer"%string (mkSlice 0 1 2)]) /\
  (let dec := decodeQueueTwice 10%Z (decodeTransport 20%Z)
                               (decodeTransport 30%Z) in
   eagerLayers sampleData dec
   = Some [cutLayer 10%Z sampleData; cutLayer 20%Z (mkSlice 0 1 2);
           cutLayer 30%Z (mkSlice 0 2 1)] /\
   lazyLayers sampleData dec
   = Some [cutLayer 10%Z sampleData; cutLayer 30%Z (mkSlice 0 1 2)]).
Proof.
  simpl. repeat split.
Qed.

(** C3 on a lazy step whose decoder queues a successor and then fails:
    the successor is still pending after the failure; with the empty
    failure payload no later call changes the packet, and one more step
    clears the pending decoder. *)
Lemma failure_is_terminal_witness :
  let nxt := decodeTransport 20%Z in
  let dec := decodeQueueThenFail 10%Z nxt "bad length" in
  let p := mkLazy (newPacketStruct sampleData) (Some dec) in
  let q := lazyPacket_decodeNextLayer failurePayload sampleHeap p in
  next p = Some dec /\
  len (handedPayload failurePayload (lpacket p)) <> 0 /\
  (forall f, len (failurePayload f) = 0) /\
  next q = Some nxt /\
  (forall h' a fuel res pk',
     Packet_call failureType failurePayload h' a fuel (LazyPacket q)
     = Some (res, pk') ->
     Packet_packet pk' = lpacket q /\
     res = eagerPacket_call failureType a (lpacket q)) /\
  (forall h', lazyPacket_decodeNextLayer failurePayload h' q
              = mkLazy (lpacket q) None).
Proof.
  intros nxt dec p q.
  assert (Hlen : len (handedPayload failurePayload (lpacket p)) <> 0)
    by (simpl; lia).
  assert (Hempty : forall f, len (failurePayload f) = 0)
    by (intros f; reflexivity).
  destruct (failure_is_terminal failureType failurePayload sampleHeap)
    as [_ H].
  destruct (H p dec
              (mkLazy (packet_AddLayer (cutLayer 10%Z sampleData)
                                       (newPacketStruct sampleData))
                      (Some nxt))
              (Returned (Some (errors_New "bad length")))
              (anyError (errors_New "bad length"))
              eq_refl Hlen eq_refl eq_refl) as (Hnext & _ & Hterm).
  destruct (Hterm Hempty) as (Hcall & _ & Hstep).
  split; [reflexivity|]. split; [exact Hlen|]. split; [exact Hempty|].
  split; [exact Hnext|]. split; [exact Hcall | exact Hstep].
Defined.

(** The claim C3 makes fails for the lazy engine: a decoder that queues
    a successor and then fails leaves that successor pending, next to the
    failure layer. *)
Lemma pending_decoder_survives_failure :
  let nxt := decodeTransport 20%Z in
  let dec := decodeQueueThenFail 10%Z nxt "bad length" in
  let p := mkLazy (newPacketStruct sampleData) (Some dec) in
  let q := lazyPacket_decodeNextLayer failurePayload sampleHeap p in
  last (lpacket q)
  = Some (FailureLayer (mkDecodeFailure (errors_New "bad length")
                                        (mkSlice 0 1 2))) /\
  next q = Some nxt /\ next q <> None.
Proof.
  simpl. repeat split. discriminate.
Qed.

(** Were a failure layer to hand on its data as payload, the decoder left
    pending by a failed step would run on it and the layers would grow. *)
Remark failure_payload_matters :
  let nxt := decodeTransport 20%Z in
  let dec := decodeQueueThenFail 10%Z nxt "bad length" in
  let p := mkLazy (newPacketStruct sampleData) (Some dec) in
  length (layers (lpacket (lazyPacket_steps fdata sampleHeap 1 p))) = 2 /\
  length (layers (lpacket (lazyPacket_steps fdata sampleHeap 2 p))) = 3.
Proof. split; reflexivity. Qed.

Lemma failurePayload_within : FailurePayloadWithin failurePayload.
Proof. intros b f _. left. reflexivity. Qed.

Lemma cutLayer_inArray ty b d :
  inArray b d -> inArray b (Layer_LayerPayload failurePayload (cutLayer ty d)).
Proof.
  intros [H0|Hb]; simpl; [left|right; exact Hb].
  simpl. rewrite H0. reflexivity.
Qed.

Lemma decodeLayer_slicing ty b d bs :
  inArray b d -> Slicing failurePayload b (decodeLayer ty None d bs).
Proof.
  intros Hd. unfold decodeLayer. destruct (Nat.ltb (len d) 1).
  - constructor.
  - constructor; [apply cutLayer_inArray, Hd|].
    constructor. intros e. constructor.
Qed.

(** C7 on the sample buffer: after [data[1] = 0xff] the copying packet
    still reads 1, 2, 3 and decodes as before, and the aliasing packet
    reads the new byte. *)
Lemma buffer_ownership_witness :
  let dec := Some (decodeLayer 10%Z None) in
  let copied := NewPacket failurePayload sampleHeap sampleData dec
                          (mkOptions true false) in
  let aliased := NewPacket failurePayload sampleHeap sampleData dec
                           (mkOptions true true) in
  let poked := pokes (fst copied) sampleData [(1, Byte.xff)] in
  validSlice sampleHeap sampleData /\
  FailurePayloadWithin failurePayload /\
  SlicingDecoder failurePayload (base (Packet_Data (snd copied))) dec /\
  readSlice poked (Packet_Data (snd copied))
  = [Byte.x01; Byte.x02; Byte.x03] /\
  (forall fuel, Packet_Layers failurePayload poked fuel (snd copied)
                = Packet_Layers failurePayload (fst copied) fuel (snd copied)) /\
  readSlice (pokeSlice (fst aliased) sampleData 1 Byte.xff)
            (Packet_Data (snd aliased)) !! 1
  = Some Byte.xff.
Proof.
  intros dec copied aliased poked.
  assert (Hv : validSlice sampleHeap sampleData)
    by (unfold validSlice; simpl; lia).
  assert (Hs : SlicingDecoder failurePayload
                 (base (Packet_Data (snd copied))) dec)
    by (intros d bs; apply decodeLayer_slicing).
  destruct (buffer_ownership failureType failurePayload sampleHeap sampleData
              dec true Hv) as [Hcopy Halias].
  destruct (Hcopy (fst copied) (snd copied) eq_refl) as (_ & _ & Hc & Hdecode).
  destruct (Hdecode failurePayload_within Hs [(1, Byte.xff)])
    as (_ & Hlayers & _).
  destruct (Halias (fst aliased) (snd aliased) eq_refl) as (_ & _ & Ha).
  split; [exact Hv|]. split; [exact failurePayload_within|].
  split; [exact Hs|]. split; [|split].
  - exact (proj1 (Hc [(1, Byte.xff)])).
  - exact Hlayers.
  - assert (Hi : 1 < len sampleData) by (simpl; lia).
    exact (proj1 (Ha 1 Byte.xff Hi)).
Defined.

(** C9 on the source of two reads. *)
Lemma packet_source_streams_witness :
  let p := NewPacketSource sampleSource (Some (decodeLayer 10%Z None)) in
  YieldsThenEOF (source p) 2 (fun _ => sampleData) sampleCaptureInfo /\
  exists pks,
    length pks = 2 /\
    (forall k pk, pks !! k = Some pk ->
                  capInfo (Packet_packet pk) = sampleCaptureInfo k) /\
    PacketSource_NextPackets failurePayload 3 sampleHeap p
    = map (fun pk => (Some pk, None)) pks ++ [(None, Some io_EOF)] /\
    (forall fuel, 2 < fuel ->
       PacketSource_packetsToChannel failurePayload fuel sampleHeap p
       = Some (map (fun pk => Send (Some pk)) pks ++ [Close])).
Proof.
  intros p.
  assert (Hy : YieldsThenEOF (source p) 2 (fun _ => sampleData)
                             sampleCaptureInfo).
  { split; [|reflexivity].
    intros [|[|k]] Hk; [reflexivity | reflexivity | simpl in Hk; lia]. }
  split; [exact Hy|].
  exact (proj1 (packet_source_streams failurePayload sampleHeap p) 2 _ _ Hy).
Defined.

(** An error of the source other than [io.EOF] reaches the caller of
    [NextPacket] and is skipped by the loop of [Packets]. *)
Example source_error_is_skipped :
  let boom := errors_New "read timeout" in
  let src := mkSource (fun k => match k with
                                | 0 => ReadErr boom
                                | 1 => ReadOk sampleData (sampleCaptureInfo 1)
                                | _ => ReadErr io_EOF
                                end) 0 in
  let p := NewPacketSource src (Some (decodeLayer 10%Z None)) in
  snd (PacketSource_NextPacket failurePayload sampleHeap p)
  = (None, Some boom) /\
  option_map (@length ChanEvent)
    (PacketSource_packetsToChannel failurePayload 5 sampleHeap p) = Some 2.
Proof. split; reflexivity. Qed.

(** With [NoCopy] set, a layer payload of a lazily decoded packet shows
    a byte written through the caller's slice. *)
Example aliased_payload_sees_write :
  let aliased := NewPacket failurePayload sampleHeap sampleData
                           (Some (decodeLayer 10%Z None)) (mkOptions true true) in
  let poked := pokeSlice (fst aliased) sampleData 1 Byte.xff in
  option_map (fun r => map (fun l => readSlice (fst aliased)
                                       (Layer_LayerPayload failurePayload l))
                           (fst r))
             (Packet_Layers failurePayload (fst aliased) 5 (snd aliased))
  = Some [[Byte.x02; Byte.x03]; []] /\
  option_map (fun r => map (fun l => readSlice poked
                                       (Layer_LayerPayload failurePayload l))
                           (fst r))
             (Packet_Layers failurePayload poked 5 (snd aliased))
  = Some [[Byte.xff; Byte.x03]; []].
Proof. split; reflexivity. Qed.

(** * The further properties on the sample inputs *)

Lemma decodeTransport_adds_no_failure ty d bs :
  AddsNoFailure (decodeTransport ty d bs).
Proof. unfold decodeTransport. repeat constructor. Qed.

Lemma decodeLayer_adds_no_failure ty (nxt : Decoder) d bs :
  (forall d' bs', AddsNoFailure (nxt d' bs')) ->
  AddsNoFailure (decodeLayer ty (Some nxt) d bs).
Proof.
  intros H. unfold decodeLayer. destruct (Nat.ltb (len d) 1).
  - constructor.
  - constructor; [reflexivity|]. constructor; [exact H|]. intros e. constructor.
Qed.

Lemma sampleChain_adds_no_failure : DecoderAddsNoFailure (Some sampleChain).
Proof.
  intros d bs. apply decodeLayer_adds_no_failure. intros d1 bs1.
  apply decodeLayer_adds_no_failure. intros d2 bs2.
  apply decodeTransport_adds_no_failure.
Qed.

Lemma decodeLayer_never_claims r ty (nxt : Decoder) d bs :
  (forall d' bs', NeverClaims r (nxt d' bs')) ->
  NeverClaims r (decodeLayer ty (Some nxt) d bs).
Proof.
  intros H. unfold decodeLayer. destruct (Nat.ltb (len d) 1).
  - constructor.
  - constructor. constructor; [exact H|]. intros e. constructor.
Qed.

Lemma sampleChain_never_claims_error : DecoderNeverClaims RError (Some sampleChain).
Proof.
  intros d bs. apply decodeLayer_never_claims. intros d1 bs1.
  apply decodeLayer_never_claims. intros d2 bs2.
  unfold decodeTransport. constructor. constructor; [discriminate|]. constructor.
Qed.

(** X1 on a lazy packet over the sample chain, before and after a call. *)
Lemma last_is_final_layer_witness :
  let pk := snd (NewPacket failurePayload sampleHeap sampleData
                   (Some sampleChain) (mkOptions true true)) in
  let p := mkLazy (newPacketStruct sampleData) (Some sampleChain) in
  let pk' := LazyPacket (lazyPacket_steps failurePayload sampleHeap 2 p) in
  LastIsFinal (Packet_packet pk) /\
  Packet_call failureType failurePayload sampleHeap (CallLayer 20%Z) 5 pk
  = Some (Some (cutLayer 20%Z (mkSlice 0 1 2)), pk') /\
  LastIsFinal (Packet_packet pk') /\
  handedPayload failurePayload (Packet_packet pk') = mkSlice 0 2 1.
Proof.
  intros pk p pk'.
  destruct (last_is_final_layer failureType failurePayload sampleHeap
              sampleData (Some sampleChain) (mkOptions true true)) as [H0 H].
  destruct (H pk H0) as (_ & Hcall & _).
  assert (Hc : Packet_call failureType failurePayload sampleHeap
                 (CallLayer 20%Z) 5 pk
               = Some (Some (cutLayer 20%Z (mkSlice 0 1 2)), pk'))
    by reflexivity.
  pose proof (Hcall _ _ _ _ _ Hc) as H1.
  destruct (H pk' H1) as (Hhand & _).
  split; [exact H0|]. split; [exact Hc|]. split; [exact H1|].
  rewrite Hhand. reflexivity.
Defined.

(** X2 on the same call: the layer the packet had is still the first. *)
Lemma accessors_only_append_witness :
  let p := lazyPacket_steps failurePayload sampleHeap 1
             (mkLazy (newPacketStruct sampleData) (Some sampleChain)) in
  let pk' := LazyPacket (lazyPacket_steps failurePayload sampleHeap 2 p) in
  Packet_call failureType failurePayload sampleHeap CallTransportLayer 5
              (LazyPacket p)
  = Some (Some (cutLayer 30%Z (mkSlice 0 2 1)), pk') /\
  layers (lpacket p) `prefix_of` layers (Packet_packet pk') /\
  Packet_Data pk' = sampleData.
Proof.
  intros p pk'.
  assert (Hc : Packet_call failureType failurePayload sampleHeap
                 CallTransportLayer 5 (LazyPacket p)
               = Some (Some (cutLayer 30%Z (mkSlice 0 2 1)), pk'))
    by reflexivity.
  destruct (accessors_only_append failureType failurePayload sampleHeap
              (LazyPacket p)) as [Hcall _].
  destruct (Hcall _ _ _ _ Hc) as (Hpre & Hdata & _).
  split; [exact Hc|]. split; [exact Hpre | exact Hdata].
Defined.

(** X3 on a lookup that stops after two of three steps. *)
Lemma lazy_answer_is_final_witness :
  let p := mkLazy (newPacketStruct sampleData) (Some sampleChain) in
  let pk' := LazyPacket (lazyPacket_steps failurePayload sampleHeap 2 p) in
  Packet_call failureType failurePayload sampleHeap (CallLayer 20%Z) 5
              (LazyPacket p)
  = Some (Some (cutLayer 20%Z (mkSlice 0 1 2)), pk') /\
  next (lazyPacket_steps failurePayload sampleHeap 3 p) = None /\
  Some (cutLayer 20%Z (mkSlice 0 1 2))
  = eagerPacket_call failureType (CallLayer 20%Z)
      (lpacket (lazyPacket_steps failurePayload sampleHeap 3 p)).
Proof.
  intros p pk'.
  assert (Hc : Packet_call failureType failurePayload sampleHeap
                 (CallLayer 20%Z) 5 (LazyPacket p)
               = Some (Some (cutLayer 20%Z (mkSlice 0 1 2)), pk'))
    by reflexivity.
  assert (Hn : next (lazyPacket_steps failurePayload sampleHeap 3 p) = None)
    by reflexivity.
  split; [exact Hc|]. split; [exact Hn|].
  exact (lazy_answer_is_final failureType failurePayload sampleHeap
           (CallLayer 20%Z) 5 p _ pk' 3 Hc Hn).
Defined.

(** X4 on the same call, repeated on another heap and budget. *)
Lemma accessors_idempotent_witness :
  let p := mkLazy (newPacketStruct sampleData) (Some sampleChain) in
  let pk' := LazyPacket (lazyPacket_steps failurePayload sampleHeap 2 p) in
  Packet_call failureType failurePayload sampleHeap (CallLayer 20%Z) 5
              (LazyPacket p)
  = Some (Some (cutLayer 20%Z (mkSlice 0 1 2)), pk') /\
  Packet_call failureType failurePayload [] (CallLayer 20%Z) 0 pk'
  = Some (Some (cutLayer 20%Z (mkSlice 0 1 2)), pk').
Proof.
  intros p pk'.
  assert (Hc : Packet_call failureType failurePayload sampleHeap
                 (CallLayer 20%Z) 5 (LazyPacket p)
               = Some (Some (cutLayer 20%Z (mkSlice 0 1 2)), pk'))
    by reflexivity.
  destruct (accessors_idempotent failureType failurePayload sampleHeap
              (LazyPacket p)) as [Hcall _].
  split; [exact Hc | exact (Hcall _ _ _ _ Hc [] 0)].
Defined.

(** X5: [Layers] after [Layer(20)] against [Layers] at once. *)
Lemma Layers_after_any_call_witness :
  let p := mkLazy (newPacketStruct sampleData) (Some sampleChain) in
  let pk' := LazyPacket (lazyPacket_steps failurePayload sampleHeap 2 p) in
  let pk3 := LazyPacket (lazyPacket_steps failurePayload sampleHeap 3 p) in
  let ls := [cutLayer 10%Z sampleData; cutLayer 20%Z (mkSlice 0 1 2);
             cutLayer 30%Z (mkSlice 0 2 1)] in
  Packet_call failureType failurePayload sampleHeap (CallLayer 20%Z) 5
              (LazyPacket p)
  = Some (Some (cutLayer 20%Z (mkSlice 0 1 2)), pk') /\
  Packet_Layers failurePayload sampleHeap 5 (LazyPacket p) = Some (ls, pk3) /\
  Packet_Layers failurePayload sampleHeap 1 pk' = Some (ls, pk3) /\
  ls = ls /\ pk3 = pk3.
Proof.
  intros p pk' pk3 ls.
  assert (Hc : Packet_call failureType failurePayload sampleHeap
                 (CallLayer 20%Z) 5 (LazyPacket p)
               = Some (Some (cutLayer 20%Z (mkSlice 0 1 2)), pk'))
    by reflexivity.
  assert (H1 : Packet_Layers failurePayload sampleHeap 5 (LazyPacket p)
               = Some (ls, pk3)) by reflexivity.
  assert (H2 : Packet_Layers failurePayload sampleHeap 1 pk' = Some (ls, pk3))
    by reflexivity.
  split; [exact Hc|]. split; [exact H1|]. split; [exact H2|].
  exact (Layers_after_any_call failureType failurePayload sampleHeap p
           (CallLayer 20%Z) 5 5 1 _ pk' pk3 pk3 ls ls Hc H1 H2).
Defined.

(** X6 on a lazy packet over the empty sample slice. *)
Lemma lazy_nothing_to_hand_on_witness :
  let pk := snd (NewPacket failurePayload sampleHeap emptyData
                   (Some sampleChain) (mkOptions true true)) in
  len emptyData = 0 /\ 1 <= 1 /\
  option_map fst (Packet_call failureType failurePayload sampleHeap
                              CallLinkLayer 1 pk) = Some None /\
  option_map fst (Packet_Layers failurePayload sampleHeap 1 pk) = Some [].
Proof.
  intros pk.
  assert (H0 : len emptyData = 0) by reflexivity.
  assert (H1 : 1 <= 1) by lia.
  destruct (lazy_nothing_to_hand_on failureType failurePayload sampleHeap)
    as [_ H].
  split; [exact H0|]. split; [exact H1|].
  exact (H sampleHeap emptyData (Some sampleChain) true CallLinkLayer 1 H0 H1).
Defined.

(** X8 on the source whose first read fails: one send, then close. *)
Lemma channel_carries_successful_reads_witness :
  let p := NewPacketSource flakySource (Some sampleChain) in
  (forall k, k < 2 ->
     reads (source p) (pos (source p) + k) <> ReadErr io_EOF) /\
  reads (source p) (pos (source p) + 2) = ReadErr io_EOF /\
  PacketSource_packetsToChannel failurePayload 3 sampleHeap p
  = Some (map Send (deliveredPackets
                      (PacketSource_NextPackets failurePayload 2 sampleHeap p))
          ++ [Close]) /\
  length (deliveredPackets
            (PacketSource_NextPackets failurePayload 2 sampleHeap p)) = 1.
Proof.
  intros p.
  assert (Hb : forall k, k < 2 ->
            reads (source p) (pos (source p) + k) <> ReadErr io_EOF).
  { intros [|[|k]] Hk; [discriminate | discriminate | simpl in Hk; lia]. }
  assert (He : reads (source p) (pos (source p) + 2) = ReadErr io_EOF)
    by reflexivity.
  assert (Hf : 2 < 3) by lia.
  split; [exact Hb|]. split; [exact He|].
  split; [|reflexivity].
  exact (proj1 (channel_carries_successful_reads failurePayload sampleHeap p
                  2 3 Hb He Hf)).
Defined.

(** X9 on the source whose every read fails. *)
Lemma channel_not_closed_without_EOF_witness :
  let p := NewPacketSource brokenSource (Some sampleChain) in
  (forall k, reads (source p) (pos (source p) + k) <> ReadErr io_EOF) /\
  PacketSource_packetsToChannel failurePayload 100 sampleHeap p = None.
Proof.
  intros p.
  assert (Hn : forall k,
            reads (source p) (pos (source p) + k) <> ReadErr io_EOF)
    by (intros k; discriminate).
  split; [exact Hn|].
  exact (channel_not_closed_without_EOF failurePayload p Hn 100 sampleHeap).
Defined.

(** X10: the sample array after a copying [NewPacket]. *)
Lemma construction_keeps_memory_witness :
  let h' := fst (NewPacket failurePayload sampleHeap sampleData
                   (Some sampleChain) Default) in
  0 < length sampleHeap /\
  h' !! 0 = Some [Byte.x01; Byte.x02; Byte.x03] /\
  length h' = 2.
Proof.
  intros h'.
  assert (H0 : 0 < length sampleHeap) by (simpl; lia).
  destruct (construction_keeps_memory failurePayload sampleHeap) as [H _].
  destruct (H sampleData (Some sampleChain) Default) as (Hlen & Hold & _).
  split; [exact H0|]. split; [exact (Hold 0 H0) | exact Hlen].
Defined.

(** X12 on the sample chain cut short by a failing last decoder. *)
Lemma failure_layer_only_last_witness :
  let dec := decodeLayer 10%Z (Some (decodeFail "bad length")) in
  let pk := snd (NewPacket failurePayload sampleHeap sampleData (Some dec)
                   (mkOptions true true)) in
  let p := mkLazy (newPacketStruct sampleData) (Some dec) in
  let pk' := LazyPacket (lazyPacket_steps failurePayload sampleHeap 2 p) in
  DecoderAddsNoFailure (Some dec) /\
  (forall f, len (failurePayload f) = 0) /\
  FailureTerminal pk /\
  Packet_Layers failurePayload sampleHeap 5 pk
  = Some ([cutLayer 10%Z sampleData;
           FailureLayer (mkDecodeFailure (errors_New "bad length")
                                         (mkSlice 0 1 2))], pk') /\
  FailureTerminal pk'.
Proof.
  intros dec pk p pk'.
  assert (Hdec : DecoderAddsNoFailure (Some dec)).
  { intros d bs. apply decodeLayer_adds_no_failure. intros d' bs'. constructor. }
  assert (Hempty : forall f, len (failurePayload f) = 0)
    by (intros f; reflexivity).
  assert (HL : Packet_Layers failurePayload sampleHeap 5 pk
               = Some ([cutLayer 10%Z sampleData;
                        FailureLayer (mkDecodeFailure (errors_New "bad length")
                                                      (mkSlice 0 1 2))], pk'))
    by reflexivity.
  destruct (failure_layer_only_last failureType failurePayload sampleHeap)
    as [Hnew Hkeep].
  pose proof (Hnew sampleData (Some dec) (mkOptions true true) Hdec) as H0.
  destruct (Hkeep Hempty pk H0) as [_ HLayers].
  split; [exact Hdec|]. split; [exact Hempty|]. split; [exact H0|].
  split; [exact HL|]. exact (proj1 (HLayers _ _ _ HL)).
Defined.

(** X13 on the sample chain, printed lazily. *)
Lemma String_prints_all_layers_witness :
  let p := mkLazy (newPacketStruct sampleData) (Some (decodeTransport 10%Z)) in
  let pk' := LazyPacket (lazyPacket_steps failurePayload sampleHeap 1 p) in
  let txt := String.append "--- Layer 1: Ethernet ---"
               (String.append newline (String.append "..." newline)) in
  Packet_String failureType failurePayload sampleTypeString sampleLayerString
                sampleHeap 5 (LazyPacket p) = Some (txt, pk') /\
  Packet_String failureType failurePayload sampleTypeString sampleLayerString
                [] 0 pk' = Some (txt, pk').
Proof.
  intros p pk' txt.
  assert (Hs : Packet_String failureType failurePayload sampleTypeString
                 sampleLayerString sampleHeap 5 (LazyPacket p)
               = Some (txt, pk')) by reflexivity.
  destruct (String_prints_all_layers failureType failurePayload
              sampleTypeString sampleLayerString sampleHeap (LazyPacket p))
    as [_ H].
  destruct (H _ _ _ Hs) as (_ & _ & Hagain).
  split; [exact Hs | exact (proj1 (Hagain [] 0))].
Defined.

(** X14 on the source whose first read fails: the second call returns
    the packet built from the bytes of the second read. *)
Lemma one_read_per_call_witness :
  let p := NewPacketSource flakySource (Some sampleChain) in
  let pk1 := Packet_setCaptureInfo (sampleCaptureInfo 1)
               (snd (NewPacket failurePayload sampleHeap sampleData
                               (Some sampleChain) Default)) in
  PacketSource_NextPackets failurePayload 2 sampleHeap p !! 0
  = Some (None, Some (errors_New "read timeout")) /\
  PacketSource_NextPackets failurePayload 2 sampleHeap p !! 1
  = Some (Some pk1, None) /\
  validSlice sampleHeap sampleData /\
  readSlice (fst (PacketSource_after failurePayload 2 sampleHeap p))
            (Packet_Data pk1)
  = [Byte.x01; Byte.x02; Byte.x03] /\
  pos (source (snd (PacketSource_after failurePayload 2 sampleHeap p))) = 2.
Proof.
  intros p pk1.
  assert (H0 : PacketSource_NextPackets failurePayload 2 sampleHeap p !! 0
               = Some (None, Some (errors_New "read timeout")))
    by reflexivity.
  assert (H1 : PacketSource_NextPackets failurePayload 2 sampleHeap p !! 1
               = Some (Some pk1, None)) by reflexivity.
  assert (Hv : validSlice sampleHeap sampleData)
    by (unfold validSlice; simpl; lia).
  destruct (one_read_per_call failurePayload sampleHeap p 2)
    as (Hafter & _ & _ & Hk).
  pose proof (Hk 1 _ H1) as Hr. cbv zeta in Hr.
  change (reads (source p) (pos (source p) + 1))
    with (ReadOk sampleData (sampleCaptureInfo 1)) in Hr.
  cbv beta iota in Hr.
  destruct Hr as (pk & Er & _ & _ & _ & Hbytes).
  injection Er as <-.
  split; [exact H0|]. split; [exact H1|]. split; [exact Hv|].
  split; [exact (Hbytes Hv)|]. rewrite Hafter. reflexivity.
Defined.

(** X15 on a chain that fails: the failure layer is in the list and the
    error role is nil. *)
Lemma roles_claimed_by_decoders_only_witness :
  let pk := snd (NewPacket failurePayload sampleHeap emptyData
                   (Some sampleChain) Default) in
  DecoderNeverClaims RError (Some sampleChain) /\
  Unclaimed RError pk /\
  Packet_Layers failurePayload sampleHeap 0 pk
  = Some ([FailureLayer (mkDecodeFailure (errors_New "short buffer")
                                         (mkSlice 1 0 0))], pk) /\
  Packet_call failureType failurePayload sampleHeap CallErrorLayer 0 pk
  = Some (None, pk).
Proof.
  intros pk.
  destruct (roles_claimed_by_decoders_only failureType failurePayload
              sampleHeap RError) as [Hnew Hkeep].
  pose proof (Hnew emptyData (Some sampleChain) Default
                sampleChain_never_claims_error) as H0.
  destruct (Hkeep pk H0) as (_ & _ & Hget).
  assert (Hc : Packet_call failureType failurePayload sampleHeap
                 CallErrorLayer 0 pk = Some (None, pk)) by reflexivity.
  pose proof (Hget 0 _ _ Hc) as Hres.
  split; [exact sampleChain_never_claims_error|]. split; [exact H0|].
  split; [reflexivity | exact Hc].
Defined.

(** X16 on the source of two reads. *)
Lemma default_source_packets_are_safe_witness :
  reads sampleSource (pos sampleSource) = ReadOk sampleData (sampleCaptureInfo 0) /\
  validSlice sampleHeap sampleData /\
  exists h' pe,
    PacketSource_NextPacket failurePayload sampleHeap
      (NewPacketSource sampleSource (Some sampleChain))
    = (h', mkPacketSource (mkSource (reads sampleSource) 1)
                          (Some sampleChain) Default,
       (Some (EagerPacket pe), None)) /\
    capInfo pe = sampleCaptureInfo 0 /\
    readSlice (pokes h' sampleData [(0, Byte.xff)]) (data pe)
    = [Byte.x01; Byte.x02; Byte.x03].
Proof.
  assert (Hr : reads sampleSource (pos sampleSource)
               = ReadOk sampleData (sampleCaptureInfo 0)) by reflexivity.
  assert (Hv : validSlice sampleHeap sampleData)
    by (unfold validSlice; simpl; lia).
  split; [exact Hr|]. split; [exact Hv|].
  destruct (default_source_packets_are_safe failureType failurePayload
              sampleHeap sampleSource (Some sampleChain) sampleData
              (sampleCaptureInfo 0) Hr Hv)
    as (h' & pe & HN & Hci & _ & _ & Hws & _).
  exists h', pe. split; [exact HN|]. split; [exact Hci | exact (Hws _)].
Defined.
